(** * AddressSanitizer memory profile (asan_memory_profile.cpp)

    A shallow embedding of [__sanitizer_print_memory_profile]: the
    per-allocation-site aggregation done by [HeapProfile::ProcessChunk] and
    [HeapProfile::Insert], the report written by [HeapProfile::Print], and
    the lock / stop-the-world sequence around them.

    [uptr] is the pointer-sized unsigned integer of the sanitizer runtime
    (declared in sanitizer_internal_defs.h).  It is modelled as [N] at the
    64 bits of the 64-bit targets, with the wrap-around of every addition
    and multiplication written out ([wrap]).  Every statement that needs a
    quantity to stay inside the word says so with a bound against
    [uptr_modulus]. *)

From stdpp Require Import base numbers option list sorting.
From Stdlib Require Import NArith Lia.

Local Open Scope N_scope.

(** ** Machine integers *)

Definition uptr_bits : N := 64.
Definition uptr_modulus : N := 2 ^ uptr_bits.

(** Reduction of an unbounded natural to the value an [uptr] holds. *)
Definition wrap (x : N) : N := x mod uptr_modulus.

Definition uptr_add (a b : N) : N := wrap (a + b).
Definition uptr_mul (a b : N) : N := wrap (a * b).
(** Unsigned division; C++ leaves division by zero undefined, [N.div]
    gives 0 there.  [Print] only divides after its CHECK. *)
Definition uptr_div (a b : N) : N := a / b.

Arguments wrap : simpl never.
Arguments uptr_add : simpl never.
Arguments uptr_mul : simpl never.
Arguments uptr_div : simpl never.

(** ** Data *)

(** struct AllocationSite *)
Record AllocationSite : Type := mkAllocationSite {
  id : N;          (* u32 *)
  total_size : N;  (* uptr *)
  count : N        (* uptr *)
}.

(** What [ProcessChunk] reads from an [AsanChunkView]: the results of its
    four accessors.  The class itself is declared in asan_allocator.h. *)
Record AsanChunkView : Type := mkChunkView {
  IsAllocated : bool;
  IsQuarantined : bool;
  UsedSize : N;
  GetAllocStackId : N
}.

(** class HeapProfile: the five totals and the vector of sites. *)
Record HeapProfile : Type := mkHeapProfile {
  total_allocated_user_size_ : N;
  total_allocated_count_ : N;
  total_quarantined_user_size_ : N;
  total_quarantined_count_ : N;
  total_other_count_ : N;
  allocations_ : list AllocationSite
}.

(** HeapProfile(): all totals zero, empty vector (reserve only sets the
    capacity). *)
Definition HeapProfile_new : HeapProfile :=
  mkHeapProfile 0 0 0 0 0 [].

(** ** HeapProfile::Insert *)

(** The body of the [if] inside the scan: [total_size += size; count++]. *)
Definition bump (a : AllocationSite) (size : N) : AllocationSite :=
  mkAllocationSite (id a) (uptr_add (total_size a) size) (uptr_add (count a) 1).

(** The linear scan returns at the first index whose id matches and updates
    that slot in place; when the scan ends without a match a new record
    [{id, size, 1}] is pushed at the back. *)
Definition Insert_vec (v : list AllocationSite) (i : N) (size : N)
  : list AllocationSite :=
  match list_find (λ a, id a = i) v with
  | Some (k, a) => <[k := bump a size]> v
  | None => v ++ [mkAllocationSite i size 1]
  end.

Definition Insert (hp : HeapProfile) (i : N) (size : N) : HeapProfile :=
  mkHeapProfile
    (total_allocated_user_size_ hp) (total_allocated_count_ hp)
    (total_quarantined_user_size_ hp) (total_quarantined_count_ hp)
    (total_other_count_ hp)
    (Insert_vec (allocations_ hp) i size).

(** ** HeapProfile::ProcessChunk *)

Definition add_allocated (hp : HeapProfile) (size : N) : HeapProfile :=
  mkHeapProfile
    (uptr_add (total_allocated_user_size_ hp) size)
    (uptr_add (total_allocated_count_ hp) 1)
    (total_quarantined_user_size_ hp) (total_quarantined_count_ hp)
    (total_other_count_ hp) (allocations_ hp).

Definition add_quarantined (hp : HeapProfile) (size : N) : HeapProfile :=
  mkHeapProfile
    (total_allocated_user_size_ hp) (total_allocated_count_ hp)
    (uptr_add (total_quarantined_user_size_ hp) size)
    (uptr_add (total_quarantined_count_ hp) 1)
    (total_other_count_ hp) (allocations_ hp).

Definition add_other (hp : HeapProfile) : HeapProfile :=
  mkHeapProfile
    (total_allocated_user_size_ hp) (total_allocated_count_ hp)
    (total_quarantined_user_size_ hp) (total_quarantined_count_ hp)
    (uptr_add (total_other_count_ hp) 1) (allocations_ hp).

Definition ProcessChunk (hp : HeapProfile) (cv : AsanChunkView) : HeapProfile :=
  if IsAllocated cv then
    let hp1 := add_allocated hp (UsedSize cv) in
    let i := GetAllocStackId cv in
    if negb (i =? 0) then Insert hp1 i (UsedSize cv) else hp1
  else if IsQuarantined cv then
    add_quarantined hp (UsedSize cv)
  else
    add_other hp.

(** The aggregator after a sequence of chunks, in the order the enumerator
    delivers them, starting from a fresh [HeapProfile]. *)
Definition observe_from (hp : HeapProfile) (cvs : list AsanChunkView) : HeapProfile :=
  foldl ProcessChunk hp cvs.

Definition observe (cvs : list AsanChunkView) : HeapProfile :=
  observe_from HeapProfile_new cvs.

(** ** Sort *)

(** Modelled from the spec: [Sort] of sanitizer_common is not part of this
    file.  The spec (Report Renderer, step 1) only says that the records are
    sorted by the comparison handed over, with ties in no particular order.
    [Sort comp v] puts [a] before [b] whenever [comp a b] holds; this model
    is an insertion sort, which keeps tied records in their vector order.
    [Sort_insert] puts one more element into a sorted vector. *)
Fixpoint Sort_insert {T : Type} (comp : T → T → bool) (x : T) (v : list T) : list T :=
  match v with
  | [] => [x]
  | y :: v' => if comp y x then y :: Sort_insert comp x v' else x :: v
  end.

(** Modelled from the spec: [Sort(v, size, comp)], see [Sort_insert]. *)
Definition Sort {T : Type} (comp : T → T → bool) (v : list T) : list T :=
  foldr (Sort_insert comp) [] v.

(** ** The runtime around the profile: output, locks, stopped world *)

Inductive Lock : Type := ThreadRegistryLock | AllocatorLock.

Inductive Event : Type :=
| EvLock (l : Lock)
| EvUnlock (l : Lock)
| EvSuspendThreads
| EvResumeThreads
| EvPrintfHeader (allocated_bytes allocated_chunks quarantined_bytes
                  quarantined_chunks other_chunks total_chunks
                  top_percent max_contexts : N)
| EvPrintfSite (bytes percent allocations : N)
| EvStackPrint (stack_id : N)
| EvPrintAccumulatedStats.

Definition SuspendedThreadsList : Type := list N.
Definition dl_phdr_info : Type := N.

Record Runtime : Type := mkRuntime {
  heap_chunks : list N;                    (* walked by ForEachChunk *)
  chunk_at : N → AsanChunkView;            (* FindHeapChunkByAllocBeg *)
  threads : SuspendedThreadsList;
  loaded_modules : list dl_phdr_info;
  verbosity : Z;
  locks_held : list Lock;
  trace : list Event                       (* oldest event first *)
}.

(** A run either returns with a value or ends in the abort of a failed
    CHECK; both carry the runtime reached. *)
Inductive Outcome (A : Type) : Type :=
| Done (a : A) (rt : Runtime)
| Died (rt : Runtime).
Arguments Done {A} a rt.
Arguments Died {A} rt.

Definition M (A : Type) : Type := Runtime → Outcome A.

Definition ret {A : Type} (a : A) : M A := λ rt, Done a rt.

Definition bind {A B : Type} (c : M A) (k : A → M B) : M B :=
  λ rt, match c rt with
        | Done a rt' => k a rt'
        | Died rt' => Died rt'
        end.

Notation "'let!' x ':=' c 'in' k" := (bind c (λ x, k))
  (at level 10, x name, c at level 100, k at level 200).
Notation "c ;> k" := (bind c (λ _, k))
  (at level 100, k at level 200, right associativity).

Definition die {A : Type} : M A := λ rt, Died rt.

Definition set_trace (rt : Runtime) (tr : list Event) : Runtime :=
  mkRuntime (heap_chunks rt) (chunk_at rt) (threads rt) (loaded_modules rt)
            (verbosity rt) (locks_held rt) tr.

Definition set_locks (rt : Runtime) (ls : list Lock) : Runtime :=
  mkRuntime (heap_chunks rt) (chunk_at rt) (threads rt) (loaded_modules rt)
            (verbosity rt) ls (trace rt).

Definition emit (e : Event) : M unit :=
  λ rt, Done tt (set_trace rt (trace rt ++ [e])).

(** Modelled from the spec: the CHECK macro of sanitizer_common; a CHECK
    of zero is the precondition violation that aborts the process. *)
Definition CHECK (c : N) : M unit :=
  if c =? 0 then die else ret tt.

Global Instance Lock_eq_dec : EqDecision Lock.
Proof. solve_decision. Defined.

(** ** HeapProfile::Print *)

(** The lambda handed to Sort: [a.total_size > b.total_size]. *)
Definition by_total_size_desc (a b : AllocationSite) : bool :=
  total_size b <? total_size a.

Definition set_allocations (hp : HeapProfile) (v : list AllocationSite) : HeapProfile :=
  mkHeapProfile
    (total_allocated_user_size_ hp) (total_allocated_count_ hp)
    (total_quarantined_user_size_ hp) (total_quarantined_count_ hp)
    (total_other_count_ hp) v.

(** [a.total_size * 100 / total_allocated_user_size_] in uptr arithmetic. *)
Definition percent_of (bytes total : N) : N :=
  uptr_div (uptr_mul bytes 100) total.

(** The body of the for loop over the records it visits, with the running
    [total_shown]; the [break] ends the recursion. *)
Fixpoint Print_loop (total top_percent total_shown : N)
         (v : list AllocationSite) : M unit :=
  match v with
  | [] => ret tt
  | a :: v' =>
      emit (EvPrintfSite (total_size a) (percent_of (total_size a) total) (count a)) ;>
      emit (EvStackPrint (id a)) ;>
      let total_shown := uptr_add total_shown (total_size a) in
      if top_percent <? percent_of total_shown total
      then ret tt
      else Print_loop total top_percent total_shown v'
  end.

(** Min(allocations_.size(), max_number_of_contexts) *)
Definition loop_bound (v : list AllocationSite) (max_number_of_contexts : N) : N :=
  N.min (N.of_nat (length v)) max_number_of_contexts.

Definition Print (hp : HeapProfile) (top_percent max_number_of_contexts : N)
  : M HeapProfile :=
  let hp := set_allocations hp (Sort by_total_size_desc (allocations_ hp)) in
  CHECK (total_allocated_user_size_ hp) ;>
  emit (EvPrintfHeader
          (total_allocated_user_size_ hp) (total_allocated_count_ hp)
          (total_quarantined_user_size_ hp) (total_quarantined_count_ hp)
          (total_other_count_ hp)
          (uptr_add (uptr_add (total_allocated_count_ hp)
                              (total_quarantined_count_ hp))
                    (total_other_count_ hp))
          top_percent max_number_of_contexts) ;>
  Print_loop (total_allocated_user_size_ hp) top_percent 0
             (take (N.to_nat (loop_bound (allocations_ hp) max_number_of_contexts))
                   (allocations_ hp)) ;>
  ret hp.

(** ** The callbacks and the coordinator *)

(** Modelled from the spec: [FindHeapChunkByAllocBeg] of the allocator is
    not part of this file; it gives the view of the chunk that begins at
    an address, here read from the runtime. *)
Definition FindHeapChunkByAllocBeg (chunk : N) : M AsanChunkView :=
  λ rt, Done (chunk_at rt chunk) rt.

(** Modelled from the spec: [__lsan::ForEachChunk] is not part of this
    file; the chunk enumerator "invokes it once per live heap chunk", in
    an order of its own.  [for_each_chunk] is its walk over the chunks. *)
Fixpoint for_each_chunk {A : Type} (callback : N → A → M A)
         (chunks : list N) (arg : A) : M A :=
  match chunks with
  | [] => ret arg
  | c :: cs => let! arg' := callback c arg in for_each_chunk callback cs arg'
  end.

(** Modelled from the spec: [__lsan::ForEachChunk(callback, arg)], see
    [for_each_chunk]. *)
Definition ForEachChunk {A : Type} (callback : N → A → M A) (arg : A) : M A :=
  λ rt, for_each_chunk callback (heap_chunks rt) arg rt.

Definition ChunkCallback (chunk : N) (hp : HeapProfile) : M HeapProfile :=
  let! cv := FindHeapChunkByAllocBeg chunk in ret (ProcessChunk hp cv).

(** Modelled from the spec: [Verbosity()] reads a flag of the runtime. *)
Definition Verbosity : M Z := λ rt, Done (verbosity rt) rt.

(** Modelled from the spec: [__asan_print_accumulated_stats] is defined
    elsewhere; here it is one event of the output. *)
Definition __asan_print_accumulated_stats : M unit :=
  emit EvPrintAccumulatedStats.

Definition MemoryProfileCB (suspended_threads_list : SuspendedThreadsList)
           (argument : N * N) : M unit :=
  let! hp := ForEachChunk ChunkCallback HeapProfile_new in
  Print hp (fst argument) (snd argument) ;>
  let! v := Verbosity in
  if negb (v =? 0)%Z then __asan_print_accumulated_stats else ret tt.

Definition StopTheWorldCallback : Type := SuspendedThreadsList → N * N → M unit.

Record DoStopTheWorldParam : Type := mkParam {
  callback : StopTheWorldCallback;
  argument : N * N
}.

(** Modelled from the spec: the lock and unlock calls of lsan are not part
    of this file; they are the "two named, ordered mutual-exclusion
    resources" of the spec.  [acquire] records that the calling thread
    takes a lock. *)
Definition acquire (l : Lock) : M unit :=
  λ rt, Done tt (set_trace (set_locks rt (l :: locks_held rt))
                           (trace rt ++ [EvLock l])).

(** Modelled from the spec: the calling thread gives a lock back. *)
Definition release (l : Lock) : M unit :=
  λ rt, Done tt (set_trace (set_locks rt (filter (λ l', l' ≠ l) (locks_held rt)))
                           (trace rt ++ [EvUnlock l])).

(** Modelled from the spec: [__lsan::LockThreadRegistry]. *)
Definition LockThreadRegistry : M unit := acquire ThreadRegistryLock.
(** Modelled from the spec: [__lsan::LockAllocator]. *)
Definition LockAllocator : M unit := acquire AllocatorLock.
(** Modelled from the spec: [__lsan::UnlockAllocator]. *)
Definition UnlockAllocator : M unit := release AllocatorLock.
(** Modelled from the spec: [__lsan::UnlockThreadRegistry]. *)
Definition UnlockThreadRegistry : M unit := release ThreadRegistryLock.

(** Modelled from the spec: [StopTheWorld] "suspends all other execution,
    invokes the callback exactly once, then resumes". *)
Definition StopTheWorld (cb : StopTheWorldCallback) (arg : N * N) : M unit :=
  emit EvSuspendThreads ;>
  (λ rt, cb (threads rt) arg rt) ;>
  emit EvResumeThreads.

Definition LockDefStuffAndStopTheWorld (param : DoStopTheWorldParam) : M unit :=
  LockThreadRegistry ;>
  LockAllocator ;>
  StopTheWorld (callback param) (argument param) ;>
  UnlockAllocator ;>
  UnlockThreadRegistry.

Definition LockStuffAndStopTheWorldCallback (info : dl_phdr_info) (size : N)
           (data : DoStopTheWorldParam) : M Z :=
  LockDefStuffAndStopTheWorld data ;>
  ret 1%Z.

(** Modelled from the spec: [dl_iterate_phdr] "iterates loaded modules,
    invoking a callback per module"; as in libc it stops at the first
    callback that returns non-zero and returns that value.
    [dl_iterate_modules] is its walk over the modules. *)
Fixpoint dl_iterate_modules {D : Type} (cb : dl_phdr_info → N → D → M Z)
         (mods : list dl_phdr_info) (data : D) : M Z :=
  match mods with
  | [] => ret 0%Z
  | m :: ms =>
      let! r := cb m 0 data in
      if (r =? 0)%Z then dl_iterate_modules cb ms data else ret r
  end.

(** Modelled from the spec: [dl_iterate_phdr(callback, data)], see
    [dl_iterate_modules]. *)
Definition dl_iterate_phdr {D : Type} (cb : dl_phdr_info → N → D → M Z)
           (data : D) : M Z :=
  λ rt, dl_iterate_modules cb (loaded_modules rt) data rt.

(** The preprocessor conditions of the file. *)
Record Build : Type := mkBuild {
  CAN_SANITIZE_LEAKS : bool;
  SANITIZER_LINUX_OR_NETBSD : bool
}.

Definition LockStuffAndStopTheWorld (b : Build) (cb : StopTheWorldCallback)
           (arg : N * N) : M unit :=
  let param := mkParam cb arg in
  if SANITIZER_LINUX_OR_NETBSD b
  then dl_iterate_phdr LockStuffAndStopTheWorldCallback param ;> ret tt
  else LockDefStuffAndStopTheWorld param.

Definition __sanitizer_print_memory_profile (b : Build)
           (top_percent max_number_of_contexts : N) : M unit :=
  if CAN_SANITIZE_LEAKS b
  then LockStuffAndStopTheWorld b MemoryProfileCB (top_percent, max_number_of_contexts)
  else ret tt.

(** * Vocabulary of the statements *)

(** ** What a sequence of chunks contains, in unbounded arithmetic *)

Fixpoint tally (weight : AsanChunkView → N) (cvs : list AsanChunkView) : N :=
  match cvs with
  | [] => 0
  | cv :: cvs' => weight cv + tally weight cvs'
  end.

(** The three branches of [ProcessChunk]. *)
Definition in_allocated (cv : AsanChunkView) : bool := IsAllocated cv.
Definition in_quarantine (cv : AsanChunkView) : bool :=
  negb (IsAllocated cv) && IsQuarantined cv.
Definition in_other (cv : AsanChunkView) : bool :=
  negb (IsAllocated cv) && negb (IsQuarantined cv).

(** An allocated chunk whose allocation stack id is [i]. *)
Definition attributed (i : N) (cv : AsanChunkView) : bool :=
  IsAllocated cv && (GetAllocStackId cv =? i).

Definition bytes_if (p : AsanChunkView → bool) (cv : AsanChunkView) : N :=
  if p cv then UsedSize cv else 0.
Definition one_if (p : AsanChunkView → bool) (cv : AsanChunkView) : N :=
  if p cv then 1 else 0.

Definition allocated_bytes : list AsanChunkView → N := tally (bytes_if in_allocated).
Definition allocated_chunks : list AsanChunkView → N := tally (one_if in_allocated).
Definition quarantined_bytes : list AsanChunkView → N := tally (bytes_if in_quarantine).
Definition quarantined_chunks : list AsanChunkView → N := tally (one_if in_quarantine).
Definition other_chunks : list AsanChunkView → N := tally (one_if in_other).
Definition site_bytes (i : N) : list AsanChunkView → N := tally (bytes_if (attributed i)).
Definition site_chunks (i : N) : list AsanChunkView → N := tally (one_if (attributed i)).

(** Bytes of the allocated chunks whose stack id is 0. *)
Definition unattributed_bytes : list AsanChunkView → N := site_bytes 0.

(** The value of a record's [total_size] for site [i]: the record is
    created holding the first size as it is, and every later addition
    wraps. *)
Definition site_total (i : N) (cvs : list AsanChunkView) : N :=
  if site_chunks i cvs =? 1 then site_bytes i cvs else wrap (site_bytes i cvs).

(** The record [Insert] keeps for site [i] after the chunks [cvs]. *)
Definition record_of (i : N) (cvs : list AsanChunkView) : AllocationSite :=
  mkAllocationSite i (site_total i cvs) (wrap (site_chunks i cvs)).

(** A record that is the one of its own id, for a non-zero id that some
    allocated chunk carries. *)
Definition tracks (cvs : list AsanChunkView) (a : AllocationSite) : Prop :=
  id a ≠ 0 ∧ site_chunks (id a) cvs ≠ 0 ∧ a = record_of (id a) cvs.

(** Sum of [total_size] over a vector of records, unbounded. *)
Definition sum_sizes (v : list AllocationSite) : N :=
  foldr (λ a acc, total_size a + acc) 0 v.

(** The three chunk counters of a profile. *)
Definition counters (hp : HeapProfile) : N * N * N :=
  (total_allocated_count_ hp, total_quarantined_count_ hp, total_other_count_ hp).

(** [hp'] has exactly one of the three counters of [hp] incremented, by
    the [++] of the machine, and the other two as they were. *)
Definition one_counter_incremented (hp hp' : HeapProfile) : Prop :=
  let '(a, q, o) := counters hp in
  counters hp' = (uptr_add a 1, q, o)
  ∨ counters hp' = (a, uptr_add q 1, o)
  ∨ counters hp' = (a, q, uptr_add o 1).

(** The five totals of a profile. *)
Definition totals (hp : HeapProfile) : N * N * N * N * N :=
  (total_allocated_user_size_ hp, total_allocated_count_ hp,
   total_quarantined_user_size_ hp, total_quarantined_count_ hp,
   total_other_count_ hp).

(** ** What a run writes *)

Definition final {A : Type} (o : Outcome A) : Runtime :=
  match o with
  | Done _ rt => rt
  | Died rt => rt
  end.

(** The events a computation adds to the trace it starts from. *)
Definition emitted {A : Type} (c : M A) (rt : Runtime) : list Event :=
  drop (length (trace rt)) (trace (final (c rt))).

(** The numbers of one site line: bytes, percentage, allocations. *)
Definition site_line (e : Event) : option (N * N * N) :=
  match e with
  | EvPrintfSite b p c => Some (b, p, c)
  | _ => None
  end.

Definition site_lines (tr : list Event) : list (N * N * N) := omap site_line tr.

(** The line [Print] writes for a record. *)
Definition line_of (total : N) (a : AllocationSite) : N * N * N :=
  (total_size a, percent_of (total_size a) total, count a).

Definition line_bytes (l : N * N * N) : N := l.1.1.
Definition line_percent (l : N * N * N) : N := l.1.2.

(** The value of [total_shown] after the line of index [k] (from 0). *)
Definition shown_after (k : nat) (v : list AllocationSite) : N :=
  foldl uptr_add 0 (total_size <$> take (S k) v).

(** The test of the [break] after the line of index [k]. *)
Definition crosses (total top_percent : N) (v : list AllocationSite) (k : nat) : Prop :=
  top_percent < percent_of (shown_after k v) total.

(** The records the loop of [Print] goes through before it leaves, when it
    starts on [v] with [total_shown = shown]. *)
Fixpoint visited (total top_percent shown : N) (v : list AllocationSite)
  : list AllocationSite :=
  match v with
  | [] => []
  | a :: v' =>
      a :: (if top_percent <? percent_of (uptr_add shown (total_size a)) total
            then []
            else visited total top_percent (uptr_add shown (total_size a)) v')
  end.

(** The two events of one round of the loop. *)
Definition round (total : N) (a : AllocationSite) : list Event :=
  [EvPrintfSite (total_size a) (percent_of (total_size a) total) (count a);
   EvStackPrint (id a)].

Definition header (hp : HeapProfile) (top_percent max_number_of_contexts : N) : Event :=
  EvPrintfHeader
    (total_allocated_user_size_ hp) (total_allocated_count_ hp)
    (total_quarantined_user_size_ hp) (total_quarantined_count_ hp)
    (total_other_count_ hp)
    (uptr_add (uptr_add (total_allocated_count_ hp) (total_quarantined_count_ hp))
              (total_other_count_ hp))
    top_percent max_number_of_contexts.

(** [a] may stand before [b] in a vector sorted by [comp]: [b] does not
    have to come first. *)
Definition may_precede {T : Type} (comp : T → T → bool) (a b : T) : Prop :=
  comp b a = false.

(** Descending order of [total_size], ties allowed. *)
Definition size_desc (a b : AllocationSite) : Prop := total_size b ≤ total_size a.
Definition bytes_desc (l1 l2 : N * N * N) : Prop := line_bytes l2 ≤ line_bytes l1.

(** Lock, unlock, suspend and resume events. *)
Definition is_protocol (e : Event) : bool :=
  match e with
  | EvLock _ | EvUnlock _ | EvSuspendThreads | EvResumeThreads => true
  | _ => false
  end.

Definition protocol_events (tr : list Event) : list Event := filter is_protocol tr.

Definition acquired (e : Event) : option Lock :=
  match e with EvLock l => Some l | _ => None end.
Definition released (e : Event) : option Lock :=
  match e with EvUnlock l => Some l | _ => None end.

(** The locks taken, and the locks given back, in the order of the trace. *)
Definition acquisitions (tr : list Event) : list Lock := omap acquired tr.
Definition releases (tr : list Event) : list Lock := omap released tr.

(** A callback that only appends events other than lock, unlock, suspend
    and resume, and leaves the set of held locks alone. *)
Definition quiet (cb : StopTheWorldCallback) : Prop :=
  ∀ ts arg rt,
    ∃ evs, trace (final (cb ts arg rt)) = trace rt ++ evs
           ∧ protocol_events evs = []
           ∧ locks_held (final (cb ts arg rt)) = locks_held rt.

(** The runtime in which the callback of the stopped world starts. *)
Definition world_stopped (rt : Runtime) : Runtime :=
  set_trace (set_locks rt (AllocatorLock :: ThreadRegistryLock :: locks_held rt))
            (trace rt ++ [EvLock ThreadRegistryLock; EvLock AllocatorLock;
                          EvSuspendThreads]).

(** The runtime after the world resumed and the two locks were given back. *)
Definition world_resumed (rt : Runtime) : Runtime :=
  set_trace (set_locks rt (filter (λ l, l ≠ ThreadRegistryLock)
                             (filter (λ l, l ≠ AllocatorLock) (locks_held rt))))
            (trace rt ++ [EvResumeThreads; EvUnlock AllocatorLock;
                          EvUnlock ThreadRegistryLock]).

(** ** Vocabulary of the further properties *)

(** The scan of [Insert]: the first index, and the record there, whose id
    is [i]. *)
Definition find_site (i : N) (v : list AllocationSite) : option (nat * AllocationSite) :=
  list_find (λ a, id a = i) v.

(** A chunk for which [ProcessChunk] calls [Insert]. *)
Definition has_site (cv : AsanChunkView) : bool :=
  IsAllocated cv && negb (GetAllocStackId cv =? 0).

(** The stack ids handed to [Insert], in the order of the chunks. *)
Definition site_ids (cvs : list AsanChunkView) : list N :=
  GetAllocStackId <$> filter (λ cv, has_site cv) cvs.

(** The distinct elements of a list in the order of their first
    occurrence. *)
Definition first_seen (l : list N) : list N := reverse (remove_dups (reverse l)).

(** Sum of [count] over a vector of records, unbounded. *)
Definition sum_counts (v : list AllocationSite) : N :=
  foldr (λ a acc, count a + acc) 0 v.

(** Number of the allocated chunks whose stack id is 0. *)
Definition unattributed_chunks : list AsanChunkView → N := site_chunks 0.

(** Sum of the percentages of a list of site lines. *)
Definition sum_percent (ls : list (N * N * N)) : N :=
  foldr (λ l acc, line_percent l + acc) 0 ls.

(** The ids whose stacks are printed, in the order of the trace. *)
Definition stack_id (e : Event) : option N :=
  match e with EvStackPrint i => Some i | _ => None end.
Definition stack_ids (tr : list Event) : list N := omap stack_id tr.

(** What [MemoryProfileCB] writes after [Print]. *)
Definition stats_events (rt : Runtime) : list Event :=
  if (verbosity rt =? 0)%Z then [] else [EvPrintAccumulatedStats].

(** The chunk views the enumerator delivers in a runtime. *)
Definition heap_views (rt : Runtime) : list AsanChunkView :=
  chunk_at rt <$> heap_chunks rt.

(** ** Sample inputs *)

Definition invalid_chunk : AsanChunkView := mkChunkView false false 0 0.

(** A runtime whose heap holds the chunks [cvs], at addresses 0, 1, ... *)
Definition runtime_of (cvs : list AsanChunkView) : Runtime :=
  mkRuntime (N.of_nat <$> seq 0 (length cvs))
            (λ c, default invalid_chunk (cvs !! N.to_nat c))
            [] [0] 0%Z [] [].

(** Three chunks of 100 bytes from site 7 and one of 700 bytes from site 9. *)
Definition two_sites : list AsanChunkView :=
  [mkChunkView true false 100 7; mkChunkView true false 700 9;
   mkChunkView true false 100 7; mkChunkView true false 100 7].

(** The same heap with a quarantined chunk of 50 bytes and two chunks that
    are neither allocated nor quarantined. *)
Definition with_quarantine : list AsanChunkView :=
  two_sites ++ [mkChunkView false true 50 3; invalid_chunk; invalid_chunk].

(** The same heap with a quarantined chunk of 50 bytes, two chunks that are
    neither allocated nor quarantined, and 40 allocated bytes of stack id 0. *)
Definition mixed_heap : list AsanChunkView :=
  two_sites ++ [mkChunkView false true 50 3; invalid_chunk;
                mkChunkView true false 40 0; invalid_chunk].

(** * Properties *)

(** ** Machine arithmetic *)

Lemma uptr_modulus_neq0 : uptr_modulus ≠ 0.
Proof. discriminate. Qed.

Lemma wrap_lt x : wrap x < uptr_modulus.
Proof. apply N.mod_lt, uptr_modulus_neq0. Qed.

Lemma wrap_small x : x < uptr_modulus → wrap x = x.
Proof. apply N.mod_small. Qed.

Lemma wrap_le x : wrap x ≤ x.
Proof. apply N.Div0.mod_le. Qed.

Lemma wrap_add_l a b : wrap (wrap a + b) = wrap (a + b).
Proof. apply N.Div0.add_mod_idemp_l. Qed.

Lemma wrap_add_r a b : wrap (a + wrap b) = wrap (a + b).
Proof. apply N.Div0.add_mod_idemp_r. Qed.

Lemma wrap_add3 a b c : wrap (wrap a + wrap b + wrap c) = wrap (a + b + c).
Proof.
  rewrite wrap_add_r, <-(wrap_add_l (wrap a + wrap b)).
  rewrite (wrap_add_r (wrap a) b), (wrap_add_l a b).
  apply wrap_add_l.
Qed.

Lemma uptr_add_wrap_l a b : uptr_add (wrap a) b = wrap (a + b).
Proof. apply wrap_add_l. Qed.

Lemma uptr_add_small a b : a + b < uptr_modulus → uptr_add a b = a + b.
Proof. apply wrap_small. Qed.

Lemma percent_of_le bytes total : percent_of bytes total ≤ bytes * 100 / total.
Proof.
  unfold percent_of, uptr_div, uptr_mul.
  apply N.Div0.div_le_mono, wrap_le.
Qed.

Lemma percent_of_exact bytes total :
  bytes * 100 < uptr_modulus → percent_of bytes total = bytes * 100 / total.
Proof.
  intros Hb. unfold percent_of, uptr_div, uptr_mul. by rewrite wrap_small.
Qed.

(** A part of the whole is at most 100 percent of it, wrapped or not. *)
Lemma percent_of_part bytes total :
  bytes ≤ total → total ≠ 0 → percent_of bytes total ≤ 100.
Proof.
  intros Hle Hne.
  etrans; [apply percent_of_le|].
  trans (total * 100 / total).
  - apply N.Div0.div_le_mono. lia.
  - rewrite N.mul_comm, N.div_mul by done. done.
Qed.

(** ** Tallies *)

Lemma tally_app w cvs1 cvs2 : tally w (cvs1 ++ cvs2) = tally w cvs1 + tally w cvs2.
Proof. induction cvs1 as [|cv cvs1 IH]; simpl; [done|]. rewrite IH. lia. Qed.

Lemma tally_snoc w cvs cv : tally w (cvs ++ [cv]) = tally w cvs + w cv.
Proof. rewrite tally_app. simpl. lia. Qed.

Lemma tally_Permutation w cvs1 cvs2 : cvs1 ≡ₚ cvs2 → tally w cvs1 = tally w cvs2.
Proof.
  induction 1 as [|cv l l' _ IH|x y l|l l' l'' _ IH1 _ IH2]; simpl.
  - done.
  - by rewrite IH.
  - lia.
  - by rewrite IH1.
Qed.

Lemma one_if_total cv : one_if in_allocated cv + one_if in_quarantine cv + one_if in_other cv = 1.
Proof.
  unfold one_if, in_allocated, in_quarantine, in_other.
  by destruct (IsAllocated cv), (IsQuarantined cv).
Qed.

Lemma chunks_total cvs :
  allocated_chunks cvs + quarantined_chunks cvs + other_chunks cvs = N.of_nat (length cvs).
Proof.
  unfold allocated_chunks, quarantined_chunks, other_chunks.
  induction cvs as [|cv cvs IH]; simpl tally; [done|].
  pose proof (one_if_total cv). rewrite length_cons. lia.
Qed.

(** ** One more chunk *)

Lemma observe_from_snoc hp cvs cv :
  observe_from hp (cvs ++ [cv]) = ProcessChunk (observe_from hp cvs) cv.
Proof. unfold observe_from. by rewrite foldl_app. Qed.

Lemma observe_snoc cvs cv : observe (cvs ++ [cv]) = ProcessChunk (observe cvs) cv.
Proof. apply observe_from_snoc. Qed.

Lemma ProcessChunk_totals hp cv :
  totals (ProcessChunk hp cv) =
  (if in_allocated cv then uptr_add (total_allocated_user_size_ hp) (UsedSize cv)
   else total_allocated_user_size_ hp,
   if in_allocated cv then uptr_add (total_allocated_count_ hp) 1
   else total_allocated_count_ hp,
   if in_quarantine cv then uptr_add (total_quarantined_user_size_ hp) (UsedSize cv)
   else total_quarantined_user_size_ hp,
   if in_quarantine cv then uptr_add (total_quarantined_count_ hp) 1
   else total_quarantined_count_ hp,
   if in_other cv then uptr_add (total_other_count_ hp) 1
   else total_other_count_ hp).
Proof.
  unfold ProcessChunk, in_allocated, in_quarantine, in_other.
  destruct (IsAllocated cv); simpl.
  - by destruct (negb _).
  - by destruct (IsQuarantined cv).
Qed.

Lemma ProcessChunk_allocations hp cv :
  allocations_ (ProcessChunk hp cv) =
  if IsAllocated cv && negb (GetAllocStackId cv =? 0)
  then Insert_vec (allocations_ hp) (GetAllocStackId cv) (UsedSize cv)
  else allocations_ hp.
Proof.
  unfold ProcessChunk.
  destruct (IsAllocated cv); simpl.
  - by destruct (negb _).
  - by destruct (IsQuarantined cv).
Qed.

(** The totals in closed form: each is the wrapped tally of its branch. *)
Lemma observe_totals cvs :
  totals (observe cvs) =
  (wrap (allocated_bytes cvs), wrap (allocated_chunks cvs),
   wrap (quarantined_bytes cvs), wrap (quarantined_chunks cvs),
   wrap (other_chunks cvs)).
Proof.
  induction cvs as [|cv cvs IH] using rev_ind; [done|].
  rewrite observe_snoc, ProcessChunk_totals.
  unfold totals in IH. injection IH as -> -> -> -> ->.
  unfold allocated_bytes, allocated_chunks, quarantined_bytes,
    quarantined_chunks, other_chunks.
  rewrite !tally_snoc. unfold bytes_if, one_if.
  rewrite !uptr_add_wrap_l.
  destruct (in_allocated cv), (in_quarantine cv), (in_other cv);
    by rewrite ?N.add_0_r.
Qed.

(** ** HeapProfile::Insert *)

Lemma Insert_vec_nil i s : Insert_vec [] i s = [mkAllocationSite i s 1].
Proof. done. Qed.

Lemma Insert_vec_cons a v i s :
  Insert_vec (a :: v) i s =
  if decide (id a = i) then bump a s :: v else a :: Insert_vec v i s.
Proof.
  unfold Insert_vec. simpl. case_decide; [done|].
  by destruct (list_find _ v) as [[k b]|].
Qed.

(** A scan that finds no record pushes the new one at the back. *)
Lemma Insert_vec_absent v i s :
  i ∉ id <$> v → Insert_vec v i s = v ++ [mkAllocationSite i s 1].
Proof.
  induction v as [|a v IH]; intros Hi; [done|].
  rewrite Insert_vec_cons. rewrite fmap_cons, not_elem_of_cons in Hi.
  destruct Hi as [Hne Hi]. case_decide; [congruence|].
  simpl. by rewrite IH.
Qed.

(** A scan over distinct ids that finds a record changes that record and
    nothing else. *)
Lemma Insert_vec_present v i s :
  NoDup (id <$> v) → i ∈ id <$> v →
  Insert_vec v i s = (λ a, if decide (id a = i) then bump a s else a) <$> v.
Proof.
  induction v as [|a v IH]; intros Hnd Hi.
  - by apply elem_of_nil in Hi.
  - rewrite Insert_vec_cons, fmap_cons.
    rewrite fmap_cons in Hnd, Hi. apply NoDup_cons in Hnd as [Hnotin Hnd].
    case_decide as Ha.
    + f_equal. subst i. clear IH Hi Hnd.
      induction v as [|b v IH]; [done|].
      rewrite fmap_cons, not_elem_of_cons in Hnotin. destruct Hnotin as [Hne Hnotin].
      rewrite fmap_cons. case_decide; [congruence|]. f_equal. by apply IH.
    + f_equal. apply IH; [done|].
      apply elem_of_cons in Hi as [Hi|Hi]; [congruence|done].
Qed.

Lemma Insert_vec_ids v i s :
  NoDup (id <$> v) →
  id <$> Insert_vec v i s =
  if decide (i ∈ id <$> v) then id <$> v else (id <$> v) ++ [i].
Proof.
  intros Hnd. case_decide as Hi.
  - rewrite Insert_vec_present by done. rewrite <-list_fmap_compose.
    apply list_fmap_ext. intros k a _. simpl. by case_decide.
  - rewrite Insert_vec_absent by done. by rewrite fmap_app.
Qed.

Lemma Insert_vec_NoDup v i s :
  NoDup (id <$> v) → NoDup (id <$> Insert_vec v i s).
Proof.
  intros Hnd. rewrite Insert_vec_ids by done. case_decide as Hi; [done|].
  apply NoDup_app. split_and!; [done| |apply NoDup_singleton].
  intros x Hx ->%list_elem_of_singleton. done.
Qed.

Lemma sum_sizes_Permutation v1 v2 : v1 ≡ₚ v2 → sum_sizes v1 = sum_sizes v2.
Proof.
  induction 1 as [|a l l' _ IH|x y l|l l' l'' _ IH1 _ IH2]; simpl.
  - done.
  - by rewrite IH.
  - lia.
  - by rewrite IH1.
Qed.

(** [Insert] adds [size] to the sum of the sizes: always so modulo the
    word, and exactly when the new sum still fits the word. *)
Lemma Insert_vec_sum_wrap v i s :
  wrap (sum_sizes (Insert_vec v i s)) = wrap (sum_sizes v + s).
Proof.
  induction v as [|a v IH].
  - rewrite Insert_vec_nil. simpl. f_equal. lia.
  - rewrite Insert_vec_cons. case_decide as Ha; simpl.
    + unfold uptr_add. rewrite wrap_add_l. f_equal. lia.
    + rewrite <-wrap_add_r, IH, wrap_add_r. f_equal. lia.
Qed.

Lemma Insert_vec_sum_exact v i s :
  sum_sizes v + s < uptr_modulus →
  sum_sizes (Insert_vec v i s) = sum_sizes v + s.
Proof.
  induction v as [|a v IH]; intros Hfit.
  - rewrite Insert_vec_nil. simpl. lia.
  - rewrite Insert_vec_cons. simpl in Hfit. case_decide as Ha; simpl.
    + rewrite uptr_add_small by lia. lia.
    + rewrite IH by lia. lia.
Qed.

(** ** The records in closed form *)

Lemma attributed_inv i cv :
  attributed i cv = true ↔ IsAllocated cv = true ∧ GetAllocStackId cv = i.
Proof.
  unfold attributed. rewrite andb_true_iff, N.eqb_eq. done.
Qed.

Lemma site_chunks_snoc i cvs cv :
  site_chunks i (cvs ++ [cv]) = site_chunks i cvs + one_if (attributed i) cv.
Proof. apply tally_snoc. Qed.

Lemma site_bytes_snoc i cvs cv :
  site_bytes i (cvs ++ [cv]) = site_bytes i cvs + bytes_if (attributed i) cv.
Proof. apply tally_snoc. Qed.

Lemma site_bytes_none i cvs : site_chunks i cvs = 0 → site_bytes i cvs = 0.
Proof.
  unfold site_chunks, site_bytes.
  induction cvs as [|cv cvs IH]; simpl; [done|].
  unfold one_if at 1. unfold bytes_if at 1.
  destruct (attributed i cv); [lia|].
  rewrite !N.add_0_l. exact IH.
Qed.

Lemma site_total_snoc_other i cvs cv :
  attributed i cv = false → site_total i (cvs ++ [cv]) = site_total i cvs.
Proof.
  intros Hno. unfold site_total.
  rewrite site_chunks_snoc, site_bytes_snoc. unfold one_if, bytes_if.
  rewrite Hno. by rewrite !N.add_0_r.
Qed.

Lemma site_total_snoc_first i cvs cv :
  attributed i cv = true → site_chunks i cvs = 0 →
  site_total i (cvs ++ [cv]) = UsedSize cv.
Proof.
  intros Hyes Hn. unfold site_total.
  rewrite site_chunks_snoc, site_bytes_snoc. unfold one_if, bytes_if.
  rewrite Hyes, Hn, (site_bytes_none _ _ Hn). done.
Qed.

Lemma site_total_snoc_next i cvs cv :
  attributed i cv = true → site_chunks i cvs ≠ 0 →
  site_total i (cvs ++ [cv]) = uptr_add (site_total i cvs) (UsedSize cv).
Proof.
  intros Hyes Hn. unfold site_total.
  rewrite site_chunks_snoc, site_bytes_snoc. unfold one_if, bytes_if.
  rewrite Hyes.
  destruct (N.eqb_spec (site_chunks i cvs + 1) 1) as [E|_]; [lia|].
  destruct (N.eqb_spec (site_chunks i cvs) 1) as [_|_]; [done|].
  by rewrite uptr_add_wrap_l.
Qed.

Lemma site_chunks_snoc_other i cvs cv :
  attributed i cv = false → site_chunks i (cvs ++ [cv]) = site_chunks i cvs.
Proof.
  intros Hno. rewrite site_chunks_snoc. unfold one_if. rewrite Hno. lia.
Qed.

Lemma site_chunks_snoc_same i cvs cv :
  attributed i cv = true → site_chunks i (cvs ++ [cv]) = site_chunks i cvs + 1.
Proof.
  intros Hyes. rewrite site_chunks_snoc. unfold one_if. by rewrite Hyes.
Qed.

Lemma record_of_snoc_other i cvs cv :
  attributed i cv = false → record_of i (cvs ++ [cv]) = record_of i cvs.
Proof.
  intros Hno. unfold record_of.
  by rewrite site_total_snoc_other, site_chunks_snoc_other.
Qed.

Lemma record_of_snoc_first i cvs cv :
  attributed i cv = true → site_chunks i cvs = 0 →
  record_of i (cvs ++ [cv]) = mkAllocationSite i (UsedSize cv) 1.
Proof.
  intros Hyes Hn. unfold record_of.
  rewrite site_total_snoc_first, site_chunks_snoc_same by done.
  by rewrite Hn.
Qed.

Lemma record_of_snoc_next i cvs cv :
  attributed i cv = true → site_chunks i cvs ≠ 0 →
  record_of i (cvs ++ [cv]) = bump (record_of i cvs) (UsedSize cv).
Proof.
  intros Hyes Hn. unfold record_of, bump. simpl.
  rewrite site_total_snoc_next, site_chunks_snoc_same by done.
  by rewrite uptr_add_wrap_l.
Qed.

Lemma tracks_snoc_other cvs cv a :
  attributed (id a) cv = false → tracks (cvs ++ [cv]) a ↔ tracks cvs a.
Proof.
  intros Hno. unfold tracks.
  by rewrite site_chunks_snoc_other, record_of_snoc_other.
Qed.

Lemma elem_of_Insert_vec_other v i s a :
  NoDup (id <$> v) → id a ≠ i → a ∈ Insert_vec v i s ↔ a ∈ v.
Proof.
  intros Hnd Hne. destruct (decide (i ∈ id <$> v)) as [Hi|Hi].
  - rewrite Insert_vec_present by done. rewrite list_elem_of_fmap. split.
    + intros (b & -> & Hb). case_decide as Hbi; [|done]. by destruct Hne.
    + intros Ha. exists a. by case_decide.
  - rewrite Insert_vec_absent by done.
    rewrite elem_of_app, list_elem_of_singleton. split; [|by left].
    intros [?| ->]; [done|]. by destruct Hne.
Qed.

Lemma elem_of_Insert_vec_same v i s a :
  NoDup (id <$> v) → id a = i →
  a ∈ Insert_vec v i s ↔
  (∃ b, b ∈ v ∧ id b = i ∧ a = bump b s)
  ∨ ((i ∉ id <$> v) ∧ a = mkAllocationSite i s 1).
Proof.
  intros Hnd Hai. destruct (decide (i ∈ id <$> v)) as [Hi|Hi].
  - rewrite Insert_vec_present by done. rewrite list_elem_of_fmap. split.
    + intros (b & Hab & Hb). left. exists b.
      case_decide as Hbi; [done|]. subst a. by destruct Hbi.
    + intros [(b & Hb & Hbi & ->)|[? _]]; [|done].
      exists b. by case_decide.
  - rewrite Insert_vec_absent by done.
    rewrite elem_of_app, list_elem_of_singleton. split.
    + intros [Ha| ->]; [|by right].
      destruct Hi. apply list_elem_of_fmap. by exists a.
    + intros [(b & Hb & Hbi & _)|[_ ->]]; [|by right].
      destruct Hi. apply list_elem_of_fmap. by exists b.
Qed.

(** The vector holds one record per non-zero stack id seen on an
    allocated chunk, and that record is [record_of]. *)
Lemma observe_sites cvs :
  NoDup (id <$> allocations_ (observe cvs)) ∧
  ∀ a, a ∈ allocations_ (observe cvs) ↔ tracks cvs a.
Proof.
  induction cvs as [|cv cvs [IHnd IH]] using rev_ind.
  - split; [constructor|]. intros a. split; [by intros ?%elem_of_nil|].
    by intros (_ & [] & _).
  - rewrite observe_snoc, ProcessChunk_allocations.
    destruct (IsAllocated cv && negb (GetAllocStackId cv =? 0)) eqn:Hcv.
    + apply andb_true_iff in Hcv as [Hal Hid].
      apply negb_true_iff, N.eqb_neq in Hid.
      set (i := GetAllocStackId cv) in *. set (s := UsedSize cv).
      assert (Hatt : attributed i cv = true) by by apply attributed_inv.
      assert (Hoth : ∀ j, j ≠ i → attributed j cv = false).
      { intros j Hj. apply not_true_is_false. rewrite attributed_inv.
        intros [_ ?]. by apply Hj. }
      split; [by apply Insert_vec_NoDup|].
      intros a. destruct (decide (id a = i)) as [Hai|Hai].
      2:{ rewrite elem_of_Insert_vec_other, tracks_snoc_other by auto. apply IH. }
      rewrite elem_of_Insert_vec_same by done.
      unfold tracks. rewrite Hai, site_chunks_snoc_same by done.
      destruct (decide (site_chunks i cvs = 0)) as [Hn|Hn].
      * rewrite record_of_snoc_first by done. split.
        -- intros [(b & Hb & Hbi & _)|[_ ->]].
           ++ apply IH in Hb as (_ & Hbn & _). rewrite Hbi in Hbn. done.
           ++ split_and!; [done|lia|done].
        -- intros (_ & _ & ->). right. split; [|done].
           intros (b & Hbi & Hb)%list_elem_of_fmap.
           apply IH in Hb as (_ & Hbn & _). rewrite <-Hbi in Hbn. done.
      * rewrite record_of_snoc_next by done.
        assert (Hrec : record_of i cvs ∈ allocations_ (observe cvs)).
        { apply IH. done. }
        split.
        -- intros [(b & Hb & Hbi & ->)|[Hi _]].
           ++ apply IH in Hb as (_ & _ & Hb). rewrite Hbi in Hb. rewrite <-Hb.
              split_and!; [done|lia|done].
           ++ destruct Hi. apply list_elem_of_fmap. by exists (record_of i cvs).
        -- intros (_ & _ & ->). left. by exists (record_of i cvs).
    + split; [done|]. intros a. rewrite IH.
      destruct (decide (id a = 0)) as [Ha0|Ha0].
      { split; by intros (? & _). }
      rewrite tracks_snoc_other; [done|].
      apply not_true_is_false. rewrite attributed_inv.
      intros [Hal Hid]. rewrite Hal in Hcv. simpl in Hcv.
      apply negb_false_iff, N.eqb_eq in Hcv. congruence.
Qed.

(** ** The aggregator *)

Lemma record_of_Permutation i cvs1 cvs2 :
  cvs1 ≡ₚ cvs2 → record_of i cvs1 = record_of i cvs2.
Proof.
  intros Hp. unfold record_of, site_total, site_chunks, site_bytes.
  by rewrite !(tally_Permutation _ _ _ Hp).
Qed.

Lemma tracks_Permutation cvs1 cvs2 a :
  cvs1 ≡ₚ cvs2 → tracks cvs1 a ↔ tracks cvs2 a.
Proof.
  intros Hp. unfold tracks.
  rewrite (record_of_Permutation _ _ _ Hp).
  unfold site_chunks. by rewrite (tally_Permutation _ _ _ Hp).
Qed.

(** C3: two permutations of the same chunks, each fed to a fresh
    aggregator, give the same five totals and the same records up to their
    order in the vector. *)
Theorem aggregation_order_independent (cvs1 cvs2 : list AsanChunkView) :
  cvs1 ≡ₚ cvs2 →
  totals (observe cvs1) = totals (observe cvs2)
  ∧ allocations_ (observe cvs1) ≡ₚ allocations_ (observe cvs2).
Proof.
  intros Hp. split.
  - rewrite !observe_totals.
    unfold allocated_bytes, allocated_chunks, quarantined_bytes,
      quarantined_chunks, other_chunks.
    by rewrite !(tally_Permutation _ _ _ Hp).
  - destruct (observe_sites cvs1) as [Hnd1 Hin1].
    destruct (observe_sites cvs2) as [Hnd2 Hin2].
    apply NoDup_Permutation.
    + by apply NoDup_fmap_1 in Hnd1.
    + by apply NoDup_fmap_1 in Hnd2.
    + intros a. rewrite Hin1, Hin2. by apply tracks_Permutation.
Qed.

Lemma aggregation_order_independent_witness :
  let big_first :=
    [mkChunkView true false 700 9; mkChunkView true false 100 7;
     mkChunkView true false 100 7; mkChunkView true false 100 7] in
  two_sites ≡ₚ big_first
  ∧ allocations_ (observe two_sites)
    = [mkAllocationSite 7 300 3; mkAllocationSite 9 700 1]
  ∧ allocations_ (observe big_first)
    = [mkAllocationSite 9 700 1; mkAllocationSite 7 300 3]
  ∧ totals (observe two_sites) = totals (observe big_first)
  ∧ allocations_ (observe two_sites) ≡ₚ allocations_ (observe big_first).
Proof.
  intros big_first.
  assert (H : two_sites ≡ₚ big_first) by apply Permutation_swap.
  split_and!; [exact H|reflexivity|reflexivity|..];
    apply (aggregation_order_independent two_sites big_first H).
Defined.

Lemma unattributed_snoc cvs cv :
  unattributed_bytes (cvs ++ [cv]) = unattributed_bytes cvs + bytes_if (attributed 0) cv.
Proof. apply tally_snoc. Qed.

Lemma allocated_bytes_snoc cvs cv :
  allocated_bytes (cvs ++ [cv]) = allocated_bytes cvs + bytes_if in_allocated cv.
Proof. apply tally_snoc. Qed.

(** The three ways a chunk meets the sum of the record sizes. *)
Lemma chunk_cases cv :
  (IsAllocated cv && negb (GetAllocStackId cv =? 0) = true
   ∧ bytes_if in_allocated cv = UsedSize cv ∧ bytes_if (attributed 0) cv = 0)
  ∨ (IsAllocated cv && negb (GetAllocStackId cv =? 0) = false
     ∧ bytes_if in_allocated cv = bytes_if (attributed 0) cv).
Proof.
  unfold bytes_if, in_allocated, attributed.
  destruct (IsAllocated cv); simpl; [|by right].
  destruct (GetAllocStackId cv =? 0); simpl; [by right|by left].
Qed.

Lemma attribution_wrap cvs :
  wrap (sum_sizes (allocations_ (observe cvs)) + unattributed_bytes cvs)
  = wrap (allocated_bytes cvs).
Proof.
  induction cvs as [|cv cvs IH] using rev_ind; [done|].
  rewrite observe_snoc, ProcessChunk_allocations, unattributed_snoc,
    allocated_bytes_snoc.
  destruct (chunk_cases cv) as [(-> & -> & ->)|(-> & ->)].
  - rewrite N.add_0_r, <-wrap_add_l, Insert_vec_sum_wrap, wrap_add_l.
    rewrite <-(wrap_add_l (allocated_bytes cvs)), <-IH, wrap_add_l.
    f_equal. lia.
  - rewrite N.add_assoc, <-wrap_add_l, IH, wrap_add_l. done.
Qed.

Lemma attribution_exact cvs :
  allocated_bytes cvs < uptr_modulus →
  sum_sizes (allocations_ (observe cvs)) + unattributed_bytes cvs
  = allocated_bytes cvs.
Proof.
  induction cvs as [|cv cvs IH] using rev_ind; [done|].
  rewrite observe_snoc, ProcessChunk_allocations, unattributed_snoc,
    allocated_bytes_snoc.
  intros Hfit.
  destruct (chunk_cases cv) as [(-> & Hs & ->)|(-> & Hs)]; rewrite Hs in *.
  - rewrite Insert_vec_sum_exact; lia.
  - lia.
Qed.

Lemma allocated_total cvs :
  total_allocated_user_size_ (observe cvs) = wrap (allocated_bytes cvs).
Proof.
  pose proof (observe_totals cvs) as H. unfold totals in H. by injection H.
Qed.

(** C4: the sizes of the records, summed, plus the bytes of the allocated
    chunks with stack id 0, make up the total of allocated bytes: as
    numbers of the machine word in every case, and as plain numbers when
    the allocated bytes of the heap fit the word. *)
Theorem attribution_sum (cvs : list AsanChunkView) :
  wrap (sum_sizes (allocations_ (observe cvs)) + unattributed_bytes cvs)
  = total_allocated_user_size_ (observe cvs)
  ∧ (allocated_bytes cvs < uptr_modulus →
     sum_sizes (allocations_ (observe cvs)) + unattributed_bytes cvs
     = total_allocated_user_size_ (observe cvs)).
Proof.
  rewrite allocated_total. split; [apply attribution_wrap|].
  intros Hfit. rewrite wrap_small by done. by apply attribution_exact.
Qed.

Lemma attribution_sum_witness :
  allocated_bytes mixed_heap < uptr_modulus
  ∧ sum_sizes (allocations_ (observe mixed_heap)) + unattributed_bytes mixed_heap
    = 1040.
Proof.
  assert (H : allocated_bytes mixed_heap < uptr_modulus) by (vm_compute; reflexivity).
  split; [exact H|].
  exact (proj2 (attribution_sum mixed_heap) H).
Defined.

Lemma counters_closed cvs :
  counters (observe cvs) =
  (wrap (allocated_chunks cvs), wrap (quarantined_chunks cvs), wrap (other_chunks cvs)).
Proof.
  pose proof (observe_totals cvs) as H. unfold totals in H. unfold counters.
  by injection H as _ -> _ -> ->.
Qed.

Lemma ProcessChunk_counters hp cv : one_counter_incremented hp (ProcessChunk hp cv).
Proof.
  pose proof (ProcessChunk_totals hp cv) as H. unfold totals in H.
  injection H as _ Ha _ Hq Ho.
  unfold one_counter_incremented, counters. rewrite Ha, Hq, Ho.
  unfold in_allocated, in_quarantine, in_other.
  destruct (IsAllocated cv), (IsQuarantined cv); simpl; auto.
Qed.

(** C5: the three counters add up to the number of chunks observed: as
    numbers of the machine word in every case, as plain numbers when the
    number of chunks fits the word; and one more chunk increments exactly
    one of the three counters. *)
Theorem counters_conserved (cvs : list AsanChunkView) :
  let hp := observe cvs in
  wrap (total_allocated_count_ hp + total_quarantined_count_ hp + total_other_count_ hp)
  = wrap (N.of_nat (length cvs))
  ∧ (N.of_nat (length cvs) < uptr_modulus →
     total_allocated_count_ hp + total_quarantined_count_ hp + total_other_count_ hp
     = N.of_nat (length cvs))
  ∧ ∀ cv, observe (cvs ++ [cv]) = ProcessChunk hp cv
          ∧ one_counter_incremented hp (ProcessChunk hp cv).
Proof.
  intros hp. pose proof (counters_closed cvs) as H. unfold counters in H.
  fold hp in H. injection H as -> -> ->.
  pose proof (chunks_total cvs) as Hsum.
  split_and!.
  - rewrite <-Hsum. apply wrap_add3.
  - intros Hfit. rewrite !wrap_small by lia. done.
  - intros cv. split; [apply observe_snoc|apply ProcessChunk_counters].
Qed.

Lemma counters_conserved_witness :
  N.of_nat (length mixed_heap) < uptr_modulus
  ∧ total_allocated_count_ (observe mixed_heap)
    + total_quarantined_count_ (observe mixed_heap)
    + total_other_count_ (observe mixed_heap) = 8.
Proof.
  assert (H : N.of_nat (length mixed_heap) < uptr_modulus) by (vm_compute; reflexivity).
  split; [exact H|].
  exact (proj1 (proj2 (counters_conserved mixed_heap)) H).
Defined.

Lemma zero_not_tracked cvs : 0 ∉ id <$> allocations_ (observe cvs).
Proof.
  intros (a & Ha0 & Ha)%list_elem_of_fmap.
  apply observe_sites in Ha as (Hne & _). congruence.
Qed.

(** C6: the vector never holds two records of one id nor a record of id 0,
    and an allocated chunk whose non-zero id is already there changes the
    record of that id alone, adding the chunk's size to [total_size] and
    one to [count]; the vector keeps its length. *)
Theorem one_record_per_id (cvs : list AsanChunkView) :
  let v := allocations_ (observe cvs) in
  NoDup (id <$> v)
  ∧ (0 ∉ id <$> v)
  ∧ ∀ cv, IsAllocated cv = true → GetAllocStackId cv ≠ 0 →
          GetAllocStackId cv ∈ id <$> v →
          let v' := allocations_ (ProcessChunk (observe cvs) cv) in
          v' = (λ a, if decide (id a = GetAllocStackId cv)
                     then mkAllocationSite (id a)
                            (uptr_add (total_size a) (UsedSize cv))
                            (uptr_add (count a) 1)
                     else a) <$> v
          ∧ length v' = length v
          ∧ NoDup (id <$> v').
Proof.
  intros v. destruct (observe_sites cvs) as [Hnd _]. fold v in Hnd.
  split_and!; [done|apply zero_not_tracked|].
  intros cv Hal Hid Hin v'.
  assert (Hv' : v' = Insert_vec v (GetAllocStackId cv) (UsedSize cv)).
  { unfold v'. rewrite ProcessChunk_allocations, Hal. simpl.
    apply N.eqb_neq in Hid. by rewrite Hid. }
  split_and!.
  - rewrite Hv'. by apply Insert_vec_present.
  - rewrite Hv', Insert_vec_present by done. apply length_fmap.
  - rewrite Hv'. by apply Insert_vec_NoDup.
Qed.

Lemma one_record_per_id_witness :
  let cv := mkChunkView true false 5 7 in
  IsAllocated cv = true ∧ GetAllocStackId cv ≠ 0
  ∧ GetAllocStackId cv ∈ id <$> allocations_ (observe two_sites)
  ∧ allocations_ (ProcessChunk (observe two_sites) cv)
    = [mkAllocationSite 7 305 4; mkAllocationSite 9 700 1].
Proof.
  intros cv.
  assert (H1 : IsAllocated cv = true) by reflexivity.
  assert (H2 : GetAllocStackId cv ≠ 0) by discriminate.
  assert (H3 : GetAllocStackId cv ∈ id <$> allocations_ (observe two_sites)).
  { apply list_elem_of_here. }
  split_and!; [exact H1|exact H2|exact H3|].
  exact (proj1 (proj2 (proj2 (one_record_per_id two_sites)) cv H1 H2 H3)).
Defined.

(** ** Runs *)

Lemma set_trace_trace rt tr : trace (set_trace rt tr) = tr.
Proof. done. Qed.

Lemma set_trace_set_trace rt tr1 tr2 : set_trace (set_trace rt tr1) tr2 = set_trace rt tr2.
Proof. done. Qed.

Lemma set_trace_same rt : set_trace rt (trace rt) = rt.
Proof. by destruct rt. Qed.

Lemma emit_run e rt : emit e rt = Done tt (set_trace rt (trace rt ++ [e])).
Proof. done. Qed.

Lemma emitted_Done {A} (c : M A) rt a evs :
  c rt = Done a (set_trace rt (trace rt ++ evs)) → emitted c rt = evs.
Proof.
  intros H. unfold emitted. rewrite H. simpl. by rewrite drop_app_length.
Qed.

Lemma emitted_Died {A} (c : M A) rt : c rt = Died rt → emitted c rt = [].
Proof.
  intros H. unfold emitted. rewrite H. simpl. apply drop_all.
Qed.

(** ** HeapProfile::Print *)

Lemma Print_loop_run total top shown v rt :
  Print_loop total top shown v rt
  = Done tt (set_trace rt (trace rt ++ (visited total top shown v ≫= round total))).
Proof.
  revert shown rt. induction v as [|a v IH]; intros shown rt; simpl.
  - unfold ret. by rewrite app_nil_r, set_trace_same.
  - unfold bind at 1. rewrite emit_run.
    unfold bind at 1. rewrite emit_run.
    rewrite set_trace_trace, set_trace_set_trace, <-(assoc_L (++)).
    destruct (top <? percent_of (uptr_add shown (total_size a)) total).
    + done.
    + rewrite IH. rewrite set_trace_trace, set_trace_set_trace.
      by rewrite <-(assoc_L (++)).
Qed.

(** The records [Print] goes through. *)
Lemma Print_run hp top max rt :
  total_allocated_user_size_ hp ≠ 0 →
  let sorted := Sort by_total_size_desc (allocations_ hp) in
  let total := total_allocated_user_size_ hp in
  Print hp top max rt
  = Done (set_allocations hp sorted)
         (set_trace rt
            (trace rt ++ header hp top max ::
               (visited total top 0 (take (N.to_nat (loop_bound sorted max)) sorted)
                  ≫= round total))).
Proof.
  intros Hne sorted total. unfold Print. simpl.
  unfold CHECK. apply N.eqb_neq in Hne. rewrite Hne.
  unfold bind at 1. unfold ret at 1.
  unfold bind at 1. rewrite emit_run.
  unfold bind at 1. rewrite Print_loop_run.
  unfold ret. rewrite set_trace_trace, set_trace_set_trace.
  by rewrite <-(assoc_L (++)).
Qed.

Lemma Print_dies hp top max rt :
  total_allocated_user_size_ hp = 0 → Print hp top max rt = Died rt.
Proof.
  intros H0. unfold Print. simpl. unfold CHECK. by rewrite H0.
Qed.

Lemma site_lines_rounds total l : site_lines (l ≫= round total) = line_of total <$> l.
Proof.
  induction l as [|a l IH]; [done|].
  rewrite bind_cons, fmap_cons, <-IH. unfold site_lines.
  by rewrite omap_app.
Qed.

Lemma Print_lines hp top max rt :
  total_allocated_user_size_ hp ≠ 0 →
  let sorted := Sort by_total_size_desc (allocations_ hp) in
  let total := total_allocated_user_size_ hp in
  site_lines (emitted (Print hp top max) rt)
  = line_of total
      <$> visited total top 0 (take (N.to_nat (loop_bound sorted max)) sorted).
Proof.
  intros Hne sorted total.
  rewrite (emitted_Done _ _ _ _ (Print_run hp top max rt Hne)).
  apply site_lines_rounds.
Qed.

(** ** Sort *)

Section Sort_correct.
Context {T : Type} (comp : T → T → bool).
Hypothesis comp_asym : ∀ a b, comp a b = true → comp b a = false.
Hypothesis comp_cotrans :
  ∀ a b c, comp b a = false → comp c b = false → comp c a = false.

Lemma Sort_insert_Permutation x v : Sort_insert comp x v ≡ₚ x :: v.
Proof.
  induction v as [|y v IH]; simpl; [done|].
  destruct (comp y x); [|done].
  rewrite IH. apply Permutation_swap.
Qed.

Lemma Sort_Permutation v : Sort comp v ≡ₚ v.
Proof.
  induction v as [|x v IH]; simpl; [done|].
  by rewrite Sort_insert_Permutation, IH.
Qed.

Lemma Sort_insert_sorted x v :
  StronglySorted (may_precede comp) v → StronglySorted (may_precede comp) (Sort_insert comp x v).
Proof.
  induction v as [|y v IH]; intros Hs; simpl.
  - by repeat constructor.
  - apply StronglySorted_inv in Hs as [Hs Hy].
    destruct (comp y x) eqn:Hyx.
    + constructor; [by apply IH|].
      rewrite Sort_insert_Permutation. constructor; [|done].
      by apply comp_asym.
    + constructor; [by constructor|].
      constructor; [done|].
      eapply Forall_impl; [exact Hy|]. intros z Hz.
      by apply (comp_cotrans x y z).
Qed.

Lemma Sort_sorted v : StronglySorted (may_precede comp) (Sort comp v).
Proof.
  induction v as [|x v IH]; simpl; [constructor|].
  by apply Sort_insert_sorted.
Qed.
End Sort_correct.

Lemma StronglySorted_weaken {A} (R1 R2 : A → A → Prop) l :
  (∀ a b, R1 a b → R2 a b) → StronglySorted R1 l → StronglySorted R2 l.
Proof.
  intros HR. induction 1 as [|a l _ IH Ha]; constructor; [done|].
  eapply Forall_impl; [exact Ha|]. auto.
Qed.

Lemma Sort_size_desc v : StronglySorted size_desc (Sort by_total_size_desc v).
Proof.
  eapply StronglySorted_weaken; [|apply Sort_sorted].
  - intros a b. unfold by_total_size_desc, size_desc.
    intros H%N.ltb_ge. exact H.
  - unfold by_total_size_desc. intros a b H%N.ltb_lt. apply N.ltb_ge. lia.
  - unfold by_total_size_desc. intros a b c H1%N.ltb_ge H2%N.ltb_ge.
    apply N.ltb_ge. lia.
Qed.

Lemma StronglySorted_take {A} (R : A → A → Prop) n l :
  StronglySorted R l → StronglySorted R (take n l).
Proof.
  revert n. induction l as [|a l IH]; intros [|n] Hs; simpl; try constructor.
  - apply IH. by apply StronglySorted_inv in Hs as [? _].
  - apply StronglySorted_inv in Hs as [_ Ha].
    apply Forall_take. done.
Qed.

Lemma StronglySorted_lines total v :
  StronglySorted size_desc v → StronglySorted bytes_desc (line_of total <$> v).
Proof.
  induction 1 as [|a v _ IH Ha]; simpl; constructor; [done|].
  apply Forall_fmap. eapply Forall_impl; [exact Ha|]. by intros b Hb.
Qed.

(** ** The loop of Print *)

Lemma visited_spec total top v shown :
  ∃ n : nat,
    visited total top shown v = take n v
    ∧ (n ≤ length v)%nat
    ∧ (∀ k, (S k < n)%nat →
            ¬ top < percent_of (foldl uptr_add shown (total_size <$> take (S k) v)) total)
    ∧ ((n < length v)%nat →
       ∃ k, n = S k
            ∧ top < percent_of (foldl uptr_add shown (total_size <$> take (S k) v)) total).
Proof.
  revert shown. induction v as [|a v IH]; intros shown.
  - exists 0%nat. simpl. split_and!; [done|done|intros; lia|intros; lia].
  - simpl visited.
    destruct (N.ltb_spec top (percent_of (uptr_add shown (total_size a)) total)) as [Hx|Hx].
    + exists 1%nat. simpl. rewrite take_0. split_and!; [done|lia|intros; lia|].
      intros _. exists 0%nat. by rewrite take_0.
    + destruct (IH (uptr_add shown (total_size a))) as (n & Hv & Hn & Hbefore & Hstop).
      exists (S n). simpl. split_and!.
      * by rewrite Hv.
      * lia.
      * intros [|k] Hk.
        -- rewrite take_0. simpl. lia.
        -- apply Hbefore. lia.
      * intros Hlt. destruct Hstop as (k & -> & Hk); [lia|].
        by exists (S k).
Qed.

Lemma sum_sizes_take k v : sum_sizes (take k v) ≤ sum_sizes v.
Proof.
  revert k. induction v as [|a v IH]; intros [|k]; simpl; try lia.
  specialize (IH k). lia.
Qed.

Lemma foldl_uptr_add_exact shown v :
  shown + sum_sizes v < uptr_modulus →
  foldl uptr_add shown (total_size <$> v) = shown + sum_sizes v.
Proof.
  revert shown. induction v as [|a v IH]; intros shown Hfit; simpl in *.
  - lia.
  - rewrite uptr_add_small by lia. rewrite IH; lia.
Qed.

Lemma shown_after_exact k v :
  sum_sizes v < uptr_modulus → shown_after k v = sum_sizes (take (S k) v).
Proof.
  intros Hfit. unfold shown_after.
  pose proof (sum_sizes_take (S k) v).
  rewrite foldl_uptr_add_exact; lia.
Qed.

Lemma loop_bound_nat v max :
  N.to_nat (loop_bound v max) = (length v `min` N.to_nat max)%nat.
Proof. unfold loop_bound. lia. Qed.

(** The lines of a run of [Print] that gets past its CHECK: the first [n]
    records of the sorted vector, where [n] is within the bound of the
    loop, no line before the last one passes the test of the [break], and
    the loop leaves before its bound only on that test. *)
Lemma Print_lines_prefix hp top max rt :
  total_allocated_user_size_ hp ≠ 0 →
  let total := total_allocated_user_size_ hp in
  let sorted := Sort by_total_size_desc (allocations_ hp) in
  let bound := N.to_nat (loop_bound sorted max) in
  ∃ n : nat,
    site_lines (emitted (Print hp top max) rt) = line_of total <$> take n sorted
    ∧ (n ≤ bound)%nat
    ∧ (∀ k, (S k < n)%nat → ¬ crosses total top sorted k)
    ∧ ((n < bound)%nat → ∃ k, n = S k ∧ crosses total top sorted k).
Proof.
  intros Hne total sorted bound.
  rewrite Print_lines by done. fold total sorted bound.
  assert (Hb : (bound ≤ length sorted)%nat).
  { unfold bound. rewrite loop_bound_nat. lia. }
  destruct (visited_spec total top (take bound sorted) 0)
    as (n & Hv & Hn & Hbefore & Hstop).
  rewrite length_take in Hn, Hstop.
  assert (Htake : ∀ k, (k ≤ n)%nat → take k (take bound sorted) = take k sorted).
  { intros k Hk. rewrite take_take. f_equal. lia. }
  exists n. split_and!.
  - by rewrite Hv, Htake.
  - lia.
  - intros k Hk. unfold crosses, shown_after. rewrite <-Htake by lia. by apply Hbefore.
  - intros Hlt. destruct Hstop as (k & -> & Hk); [lia|].
    exists k. split; [done|]. unfold crosses, shown_after. by rewrite <-Htake.
Qed.

Lemma Print_lines_none hp top max rt :
  total_allocated_user_size_ hp = 0 → site_lines (emitted (Print hp top max) rt) = [].
Proof.
  intros H0. by rewrite (emitted_Died _ _ (Print_dies hp top max rt H0)).
Qed.

(** C8: with zero allocated bytes [Print] ends in the abort of its CHECK,
    before it has written anything. *)
Theorem zero_allocated_bytes_aborts (hp : HeapProfile) (top max : N) (rt : Runtime) :
  total_allocated_user_size_ hp = 0 →
  Print hp top max rt = Died rt ∧ emitted (Print hp top max) rt = [].
Proof.
  intros H0. pose proof (Print_dies hp top max rt H0) as Hd.
  split; [done|]. by apply emitted_Died.
Qed.

Lemma zero_allocated_bytes_aborts_witness :
  let hp := observe [invalid_chunk; mkChunkView false true 50 3] in
  total_allocated_user_size_ hp = 0
  ∧ Print hp 100 10 (runtime_of []) = Died (runtime_of []).
Proof.
  intros hp.
  assert (H : total_allocated_user_size_ hp = 0) by reflexivity.
  split; [exact H|].
  exact (proj1 (zero_allocated_bytes_aborts hp 100 10 (runtime_of []) H)).
Defined.

(** C9: [Print] puts the records in descending order of [total_size]
    before it writes, and the site lines it writes are the first records of
    that order, so their byte counts never increase down the report. *)
Theorem lines_in_descending_order (hp : HeapProfile) (top max : N) (rt : Runtime) :
  let sorted := Sort by_total_size_desc (allocations_ hp) in
  let lines := site_lines (emitted (Print hp top max) rt) in
  sorted ≡ₚ allocations_ hp
  ∧ StronglySorted size_desc sorted
  ∧ (∃ n, lines = line_of (total_allocated_user_size_ hp) <$> take n sorted)
  ∧ StronglySorted bytes_desc lines
  ∧ (∀ hp' rt', Print hp top max rt = Done hp' rt' → allocations_ hp' = sorted).
Proof.
  intros sorted lines.
  assert (Hs : StronglySorted size_desc sorted) by apply Sort_size_desc.
  assert (Hpre : ∃ n, lines = line_of (total_allocated_user_size_ hp) <$> take n sorted).
  { destruct (decide (total_allocated_user_size_ hp = 0)) as [H0|Hne].
    - exists 0%nat. unfold lines. by rewrite Print_lines_none.
    - destruct (Print_lines_prefix hp top max rt Hne) as (n & Hn & _). by exists n. }
  split_and!.
  - apply Sort_Permutation.
  - done.
  - done.
  - destruct Hpre as (n & ->).
    by apply StronglySorted_lines, StronglySorted_take.
  - intros hp' rt' Hrun.
    destruct (decide (total_allocated_user_size_ hp = 0)) as [H0|Hne].
    + by rewrite Print_dies in Hrun.
    + rewrite Print_run in Hrun by done. by injection Hrun as <- _.
Qed.

Lemma lines_in_descending_order_witness :
  let hp := observe two_sites in
  let rt := runtime_of two_sites in
  let hp' := set_allocations hp [mkAllocationSite 9 700 1; mkAllocationSite 7 300 3] in
  Print hp 100 10 rt = Done hp' (final (Print hp 100 10 rt))
  ∧ allocations_ hp' = Sort by_total_size_desc (allocations_ hp).
Proof.
  intros hp rt hp'.
  assert (Hrun : Print hp 100 10 rt = Done hp' (final (Print hp 100 10 rt)))
    by (vm_compute; reflexivity).
  split; [exact Hrun|].
  exact (proj2 (proj2 (proj2 (proj2
           (lines_in_descending_order hp 100 10 rt)))) hp' _ Hrun).
Defined.

Lemma elem_of_take_1 {A} (x : A) n l : x ∈ take n l → x ∈ l.
Proof.
  revert n. induction l as [|y l IH]; intros [|n]; simpl.
  - done.
  - done.
  - by intros ?%elem_of_nil.
  - intros [->|?]%elem_of_cons; [by left|]. right. by eapply IH.
Qed.

(** C7: the percentage of every site line is the integer quotient of its
    byte count times 100 by the total of allocated bytes, rounded down,
    when the product does not leave the machine word. *)
Theorem percentage_is_truncated_quotient
        (hp : HeapProfile) (top max : N) (rt : Runtime) (l : N * N * N) :
  l ∈ site_lines (emitted (Print hp top max) rt) →
  let total := total_allocated_user_size_ hp in
  (∃ a, a ∈ allocations_ hp
        ∧ l = (total_size a, percent_of (total_size a) total, count a))
  ∧ (line_bytes l * 100 < uptr_modulus →
     line_percent l = line_bytes l * 100 / total
     ∧ line_percent l * total ≤ line_bytes l * 100 < (line_percent l + 1) * total).
Proof.
  intros Hl total.
  destruct (decide (total = 0)) as [H0|Hne].
  { rewrite Print_lines_none in Hl by done. by apply elem_of_nil in Hl. }
  destruct (Print_lines_prefix hp top max rt Hne) as (n & Hn & _).
  rewrite Hn in Hl. apply list_elem_of_fmap in Hl as (a & -> & Ha).
  apply elem_of_take_1 in Ha. rewrite Sort_Permutation in Ha.
  split; [by exists a|].
  unfold line_of, line_bytes, line_percent. simpl. fold total. intros Hfit.
  rewrite percent_of_exact by done. split; [done|].
  pose proof (N.Div0.mul_div_le (total_size a * 100) total).
  pose proof (N.mul_succ_div_gt (total_size a * 100) total Hne).
  lia.
Qed.

Lemma percentage_is_truncated_quotient_witness :
  let hp := observe (mkChunkView true false 1 5 :: two_sites) in
  let rt := runtime_of [] in
  let l := (300, 29, 3) in
  l ∈ site_lines (emitted (Print hp 100 10) rt)
  ∧ line_bytes l * 100 < uptr_modulus
  ∧ line_percent l = line_bytes l * 100 / 1001.
Proof.
  intros hp rt l.
  assert (H1 : l ∈ site_lines (emitted (Print hp 100 10) rt)).
  { apply list_elem_of_further, list_elem_of_here. }
  assert (H2 : line_bytes l * 100 < uptr_modulus) by (vm_compute; reflexivity).
  split_and!; [exact H1|exact H2|].
  exact (proj1 (proj2 (percentage_is_truncated_quotient hp 100 10 rt l H1) H2)).
Defined.

(** C2: a run of [Print] with allocated bytes writes at most
    [max_number_of_contexts] site lines, the first records of the sorted
    vector; it leaves right after the first line whose cumulated bytes,
    times 100 and divided by the allocated bytes, exceed [top_percent],
    that line included, and otherwise goes to the bound of the loop.  The
    cumulated percentage is the one the machine computes; it is the exact
    quotient when 100 times the sum of all records fits the word. *)
Theorem selection_stops_after_crossing
        (hp : HeapProfile) (top max : N) (rt : Runtime) :
  total_allocated_user_size_ hp ≠ 0 →
  let total := total_allocated_user_size_ hp in
  let sorted := Sort by_total_size_desc (allocations_ hp) in
  let lines := site_lines (emitted (Print hp top max) rt) in
  let bound := N.to_nat (N.min (N.of_nat (length (allocations_ hp))) max) in
  (∃ rt', Print hp top max rt = Done (set_allocations hp sorted) rt')
  ∧ N.of_nat (length lines) ≤ max
  ∧ lines = line_of total <$> take (length lines) sorted
  ∧ (length lines ≤ bound)%nat
  ∧ (∀ k, (k < bound)%nat → crosses total top sorted k →
          (∀ j, (j < k)%nat → ¬ crosses total top sorted j) →
          length lines = S k)
  ∧ ((∀ k, (k < bound)%nat → ¬ crosses total top sorted k) → length lines = bound)
  ∧ (sum_sizes (allocations_ hp) * 100 < uptr_modulus →
     ∀ k, percent_of (shown_after k sorted) total
          = sum_sizes (take (S k) sorted) * 100 / total).
Proof.
  intros Hne total sorted lines bound.
  destruct (Print_lines_prefix hp top max rt Hne) as (n & Hn & Hle & Hbefore & Hstop).
  fold total sorted lines in Hn, Hle, Hbefore, Hstop.
  assert (Hsl : length sorted = length (allocations_ hp)).
  { apply Permutation_length, Sort_Permutation. }
  assert (Hb : N.to_nat (loop_bound sorted max) = bound).
  { unfold loop_bound, bound. by rewrite Hsl. }
  rewrite Hb in Hle, Hstop.
  assert (Hlen : length lines = n).
  { rewrite Hn, length_fmap, length_take. unfold bound in Hle. lia. }
  rewrite Hlen. split_and!.
  - eexists. by apply Print_run.
  - unfold bound in Hle. lia.
  - done.
  - done.
  - intros k Hk Hx Hfirst.
    destruct (decide (n ≤ k)%nat) as [Hnk|Hnk].
    + destruct Hstop as (k' & -> & Hx'); [lia|]. destruct (Hfirst k'); [lia|done].
    + destruct (decide (S k < n)%nat) as [Hkn|Hkn]; [|lia].
      by destruct (Hbefore k Hkn).
  - intros Hnone. destruct (decide (n < bound)%nat) as [Hlt|Hlt]; [|lia].
    destruct (Hstop Hlt) as (k & -> & Hx). destruct (Hnone k); [lia|done].
  - intros Hfit k.
    assert (Hsum : sum_sizes sorted = sum_sizes (allocations_ hp)).
    { apply sum_sizes_Permutation, Sort_Permutation. }
    pose proof (sum_sizes_take (S k) sorted).
    rewrite shown_after_exact by lia.
    apply percent_of_exact. lia.
Qed.

Lemma selection_stops_after_crossing_witness :
  let hp := observe two_sites in
  let rt := runtime_of two_sites in
  total_allocated_user_size_ hp ≠ 0
  ∧ crosses 1000 50 (Sort by_total_size_desc (allocations_ hp)) 0
  ∧ length (site_lines (emitted (Print hp 50 10) rt)) = 1%nat.
Proof.
  intros hp rt.
  assert (H0 : total_allocated_user_size_ hp ≠ 0) by discriminate.
  assert (Hx : crosses 1000 50 (Sort by_total_size_desc (allocations_ hp)) 0)
    by (vm_compute; reflexivity).
  assert (Hlt : (0 < N.to_nat (N.min (N.of_nat (length (allocations_ hp))) 10))%nat)
    by (vm_compute; lia).
  split_and!; [exact H0|exact Hx|].
  refine (proj1 (proj2 (proj2 (proj2 (proj2
            (selection_stops_after_crossing hp 50 10 rt H0))))) 0%nat Hlt Hx _).
  intros j Hj. lia.
Defined.

(** C10: for a heap whose allocated bytes fit the machine word and are not
    zero, the records never sum to more than the allocated bytes, so with
    [top_percent] at 100 or more the test of the [break] never holds and
    [Print] writes min(number of records, [max_number_of_contexts]) site
    lines. *)
Theorem top_percent_100_shows_all
        (cvs : list AsanChunkView) (top max : N) (rt : Runtime) :
  total_allocated_user_size_ (observe cvs) ≠ 0 →
  allocated_bytes cvs < uptr_modulus →
  100 ≤ top →
  let hp := observe cvs in
  let total := total_allocated_user_size_ hp in
  let sorted := Sort by_total_size_desc (allocations_ hp) in
  (∃ rt', Print hp top max rt = Done (set_allocations hp sorted) rt')
  ∧ sum_sizes (allocations_ hp) ≤ total
  ∧ (∀ k, ¬ crosses total top sorted k)
  ∧ N.of_nat (length (site_lines (emitted (Print hp top max) rt)))
    = N.min (N.of_nat (length (allocations_ hp))) max.
Proof.
  intros Hne Hfit Htop hp total sorted.
  assert (Htotal : total = allocated_bytes cvs).
  { unfold total, hp. rewrite allocated_total. by apply wrap_small. }
  assert (Hsum : sum_sizes (allocations_ hp) ≤ total).
  { pose proof (attribution_exact cvs Hfit). fold hp in H. lia. }
  assert (Hsorted : sum_sizes sorted = sum_sizes (allocations_ hp)).
  { apply sum_sizes_Permutation, Sort_Permutation. }
  assert (Hnever : ∀ k, ¬ crosses total top sorted k).
  { intros k. unfold crosses.
    pose proof (sum_sizes_take (S k) sorted).
    rewrite shown_after_exact by lia.
    apply N.le_ngt. etrans; [|exact Htop].
    apply percent_of_part; [lia|exact Hne]. }
  split_and!; [eexists; by apply Print_run|done|done|].
  destruct (Print_lines_prefix hp top max rt Hne) as (n & Hn & Hle & _ & Hstop).
  fold total sorted in Hn, Hle, Hstop.
  assert (Hsl : length sorted = length (allocations_ hp)).
  { apply Permutation_length, Sort_Permutation. }
  rewrite loop_bound_nat in Hle, Hstop.
  rewrite Hn, length_fmap, length_take.
  destruct (decide (n < length sorted `min` N.to_nat max)%nat) as [Hlt|Hlt].
  - destruct (Hstop Hlt) as (k & _ & Hx). by destruct (Hnever k).
  - lia.
Qed.

Lemma top_percent_100_shows_all_witness :
  let rt := runtime_of mixed_heap in
  total_allocated_user_size_ (observe mixed_heap) ≠ 0
  ∧ allocated_bytes mixed_heap < uptr_modulus
  ∧ 100 ≤ 100
  ∧ N.of_nat (length (site_lines (emitted (Print (observe mixed_heap) 100 10) rt))) = 2.
Proof.
  intros rt.
  assert (H0 : total_allocated_user_size_ (observe mixed_heap) ≠ 0) by discriminate.
  assert (H1 : allocated_bytes mixed_heap < uptr_modulus) by (vm_compute; reflexivity).
  assert (H2 : 100 ≤ 100) by reflexivity.
  split_and!; [exact H0|exact H1|exact H2|].
  exact (proj2 (proj2 (proj2 (top_percent_100_shows_all mixed_heap 100 10 rt H0 H1 H2)))).
Defined.

(** ** The coordinator *)

Lemma LockDefStuffAndStopTheWorld_run param rt :
  LockDefStuffAndStopTheWorld param rt =
  match callback param (threads rt) (argument param) (world_stopped rt) with
  | Done _ rt1 => Done tt (world_resumed rt1)
  | Died rt1 => Died rt1
  end.
Proof.
  unfold LockDefStuffAndStopTheWorld, StopTheWorld, LockThreadRegistry,
    LockAllocator, UnlockAllocator, UnlockThreadRegistry, acquire, release,
    emit, bind, world_stopped, world_resumed, set_trace, set_locks.
  simpl. rewrite <-!(assoc_L (++) (trace rt)). simpl.
  destruct (callback param _ _ _) as [[] rt1|rt1]; [|done].
  simpl. by rewrite <-!(assoc_L (++) (trace rt1)).
Qed.

Lemma protocol_events_app tr1 tr2 :
  protocol_events (tr1 ++ tr2) = protocol_events tr1 ++ protocol_events tr2.
Proof. apply filter_app. Qed.

Lemma protocol_events_cons e tr :
  protocol_events (e :: tr)
  = if is_protocol e then e :: protocol_events tr else protocol_events tr.
Proof.
  unfold protocol_events. rewrite filter_cons.
  destruct (is_protocol e); by case_decide.
Qed.

Lemma acquisitions_protocol tr : acquisitions (protocol_events tr) = acquisitions tr.
Proof.
  induction tr as [|e tr IH]; [done|].
  rewrite protocol_events_cons. unfold acquisitions in *.
  destruct e; simpl; try exact IH. f_equal. exact IH.
Qed.

Lemma releases_protocol tr : releases (protocol_events tr) = releases tr.
Proof.
  induction tr as [|e tr IH]; [done|].
  rewrite protocol_events_cons. unfold releases in *.
  destruct e; simpl; try exact IH. f_equal. exact IH.
Qed.

Lemma emitted_app {A} (c : M A) rt evs :
  trace (final (c rt)) = trace rt ++ evs → emitted c rt = evs.
Proof. intros H. unfold emitted. rewrite H. apply drop_app_length. Qed.

(** The events of the coordinator around a quiet callback. *)
Lemma LockDefStuffAndStopTheWorld_emitted param rt :
  quiet (callback param) →
  ∃ inner,
    protocol_events inner = []
    ∧ emitted (LockDefStuffAndStopTheWorld param) rt
      = [EvLock ThreadRegistryLock; EvLock AllocatorLock; EvSuspendThreads]
        ++ inner
        ++ match LockDefStuffAndStopTheWorld param rt with
           | Done _ _ => [EvResumeThreads; EvUnlock AllocatorLock;
                          EvUnlock ThreadRegistryLock]
           | Died _ => []
           end.
Proof.
  intros Hq.
  destruct (Hq (threads rt) (argument param) (world_stopped rt))
    as (inner & Htr & Hinner & _).
  exists inner. split; [done|].
  apply emitted_app. rewrite LockDefStuffAndStopTheWorld_run.
  destruct (callback param _ _ _) as [[] rt1|rt1]; simpl in *; rewrite Htr.
  - by rewrite <-!(assoc_L (++)).
  - by rewrite app_nil_r, <-!(assoc_L (++)).
Qed.

Lemma LockDefStuffAndStopTheWorld_protocol param rt :
  quiet (callback param) →
  protocol_events (emitted (LockDefStuffAndStopTheWorld param) rt)
  = match LockDefStuffAndStopTheWorld param rt with
    | Done _ _ =>
        [EvLock ThreadRegistryLock; EvLock AllocatorLock; EvSuspendThreads;
         EvResumeThreads; EvUnlock AllocatorLock; EvUnlock ThreadRegistryLock]
    | Died _ => [EvLock ThreadRegistryLock; EvLock AllocatorLock; EvSuspendThreads]
    end.
Proof.
  intros Hq.
  destruct (LockDefStuffAndStopTheWorld_emitted param rt Hq) as (inner & Hinner & ->).
  rewrite !protocol_events_app, Hinner.
  by destruct (LockDefStuffAndStopTheWorld param rt).
Qed.

(** ** The callback of the profile *)

Lemma for_each_chunk_run chunks hp rt :
  for_each_chunk ChunkCallback chunks hp rt
  = Done (observe_from hp (chunk_at rt <$> chunks)) rt.
Proof.
  revert hp. induction chunks as [|c chunks IH]; intros hp; [done|].
  simpl. unfold bind at 1. unfold ChunkCallback at 1.
  unfold bind at 1. unfold FindHeapChunkByAllocBeg, ret.
  apply IH.
Qed.

(** The chunk views the enumerator hands over, in its order. *)
Lemma ForEachChunk_run rt :
  ForEachChunk ChunkCallback HeapProfile_new rt
  = Done (observe (chunk_at rt <$> heap_chunks rt)) rt.
Proof. apply for_each_chunk_run. Qed.

Lemma MemoryProfileCB_run ts arg rt :
  let hp := observe (chunk_at rt <$> heap_chunks rt) in
  MemoryProfileCB ts arg rt =
  match Print hp arg.1 arg.2 rt with
  | Done _ rt1 =>
      if (verbosity rt1 =? 0)%Z then Done tt rt1
      else Done tt (set_trace rt1 (trace rt1 ++ [EvPrintAccumulatedStats]))
  | Died rt1 => Died rt1
  end.
Proof.
  intros hp. unfold MemoryProfileCB.
  unfold bind at 1. rewrite ForEachChunk_run. fold hp.
  unfold bind at 1. destruct (Print hp arg.1 arg.2 rt) as [hp' rt1|rt1]; [|done].
  unfold bind, Verbosity. by destruct (verbosity rt1 =? 0)%Z.
Qed.

Lemma protocol_events_rounds total l : protocol_events (l ≫= round total) = [].
Proof.
  induction l as [|a l IH]; [done|].
  rewrite bind_cons. unfold round at 1. simpl.
  by rewrite !protocol_events_cons.
Qed.

Lemma MemoryProfileCB_quiet : quiet MemoryProfileCB.
Proof.
  intros ts arg rt. rewrite MemoryProfileCB_run.
  set (hp := observe _).
  destruct (decide (total_allocated_user_size_ hp = 0)) as [H0|Hne].
  - rewrite Print_dies by done. exists []. simpl. by rewrite app_nil_r.
  - rewrite Print_run by done. simpl.
    destruct (verbosity rt =? 0)%Z; simpl.
    + eexists. split_and!; [reflexivity| |done].
      rewrite protocol_events_cons. simpl. apply protocol_events_rounds.
    + eexists. split_and!; [by rewrite <-(assoc_L (++))| |done].
      rewrite <-app_comm_cons, protocol_events_cons. simpl.
      by rewrite protocol_events_app, protocol_events_rounds.
Qed.

(** C1, as the code has it: around a callback that takes no lock itself,
    [LockDefStuffAndStopTheWorld] takes the thread registry lock first and
    the allocator lock second, stops the world with both held, and after
    the world resumed gives the two locks back in the reverse order, the
    allocator lock first. *)
Theorem thread_registry_lock_then_allocator_lock
        (param : DoStopTheWorldParam) (rt rt' : Runtime) :
  quiet (callback param) →
  LockDefStuffAndStopTheWorld param rt = Done tt rt' →
  let evs := emitted (LockDefStuffAndStopTheWorld param) rt in
  protocol_events evs
  = [EvLock ThreadRegistryLock; EvLock AllocatorLock; EvSuspendThreads;
     EvResumeThreads; EvUnlock AllocatorLock; EvUnlock ThreadRegistryLock]
  ∧ acquisitions evs = [ThreadRegistryLock; AllocatorLock]
  ∧ releases evs = [AllocatorLock; ThreadRegistryLock]
  ∧ releases evs = reverse (acquisitions evs)
  ∧ ∃ rt1, callback param (threads rt) (argument param) (world_stopped rt) = Done tt rt1
           ∧ locks_held (world_stopped rt)
             = AllocatorLock :: ThreadRegistryLock :: locks_held rt
           ∧ rt' = world_resumed rt1.
Proof.
  intros Hq Hrun evs.
  pose proof (LockDefStuffAndStopTheWorld_protocol param rt Hq) as Hp.
  rewrite Hrun in Hp. fold evs in Hp.
  assert (Ha : acquisitions evs = [ThreadRegistryLock; AllocatorLock]).
  { by rewrite <-acquisitions_protocol, Hp. }
  assert (Hr : releases evs = [AllocatorLock; ThreadRegistryLock]).
  { by rewrite <-releases_protocol, Hp. }
  split_and!.
  - done.
  - done.
  - done.
  - by rewrite Ha, Hr.
  - rewrite LockDefStuffAndStopTheWorld_run in Hrun.
    destruct (callback param _ _ _) as [[] rt1|rt1]; [|done].
    exists rt1. split_and!; [done|done|]. by injection Hrun.
Qed.

Lemma thread_registry_lock_then_allocator_lock_witness :
  let param := mkParam MemoryProfileCB (100, 10) in
  let rt := runtime_of two_sites in
  let rt' := final (LockDefStuffAndStopTheWorld param rt) in
  quiet (callback param)
  ∧ LockDefStuffAndStopTheWorld param rt = Done tt rt'
  ∧ acquisitions (emitted (LockDefStuffAndStopTheWorld param) rt)
    = [ThreadRegistryLock; AllocatorLock].
Proof.
  intros param rt rt'.
  assert (Hq : quiet (callback param)) by exact MemoryProfileCB_quiet.
  assert (Hrun : LockDefStuffAndStopTheWorld param rt = Done tt rt')
    by (vm_compute; reflexivity).
  split_and!; [exact Hq|exact Hrun|].
  exact (proj1 (proj2 (thread_registry_lock_then_allocator_lock param rt rt' Hq Hrun))).
Defined.

(** C1, as the spec has it, fails on the profile of a heap with two sites:
    the run returns and its lock events are not in the order allocator
    lock, thread registry lock, suspend, resume, thread registry lock,
    allocator lock. *)
Lemma allocator_lock_is_not_first :
  let param := mkParam MemoryProfileCB (100, 10) in
  let rt := runtime_of two_sites in
  quiet (callback param)
  ∧ (∃ rt', LockDefStuffAndStopTheWorld param rt = Done tt rt')
  ∧ protocol_events (emitted (LockDefStuffAndStopTheWorld param) rt)
    ≠ [EvLock AllocatorLock; EvLock ThreadRegistryLock; EvSuspendThreads;
       EvResumeThreads; EvUnlock ThreadRegistryLock; EvUnlock AllocatorLock]
  ∧ acquisitions (emitted (LockDefStuffAndStopTheWorld param) rt)
    ≠ [AllocatorLock; ThreadRegistryLock].
Proof.
  intros param rt. split_and!.
  - exact MemoryProfileCB_quiet.
  - eexists. vm_compute. reflexivity.
  - vm_compute. discriminate.
  - vm_compute. discriminate.
Qed.

(** ** The entry point *)

Lemma profile_without_leak_support b top max rt :
  CAN_SANITIZE_LEAKS b = false →
  __sanitizer_print_memory_profile b top max rt = Done tt rt.
Proof.
  intros Hb. unfold __sanitizer_print_memory_profile. by rewrite Hb.
Qed.

(** Under dl_iterate_phdr the coordinator runs once, for the first module,
    because the callback returns 1. *)
Lemma LockStuffAndStopTheWorld_run b cb arg rt :
  (SANITIZER_LINUX_OR_NETBSD b = true → loaded_modules rt ≠ []) →
  LockStuffAndStopTheWorld b cb arg rt
  = LockDefStuffAndStopTheWorld (mkParam cb arg) rt.
Proof.
  intros Hmods. unfold LockStuffAndStopTheWorld.
  destruct (SANITIZER_LINUX_OR_NETBSD b); [|done].
  unfold dl_iterate_phdr, bind at 1.
  destruct (loaded_modules rt) as [|m ms]; [by destruct Hmods|].
  simpl. unfold LockStuffAndStopTheWorldCallback.
  unfold bind at 1. unfold bind at 1.
  by destruct (LockDefStuffAndStopTheWorld _ rt) as [[] rt1|rt1].
Qed.

Lemma profile_run b top max rt :
  CAN_SANITIZE_LEAKS b = true →
  (SANITIZER_LINUX_OR_NETBSD b = true → loaded_modules rt ≠ []) →
  __sanitizer_print_memory_profile b top max rt
  = LockDefStuffAndStopTheWorld (mkParam MemoryProfileCB (top, max)) rt.
Proof.
  intros Hb Hmods. unfold __sanitizer_print_memory_profile. rewrite Hb.
  by apply LockStuffAndStopTheWorld_run.
Qed.

(** ** The scenarios of the spec *)

Example scenario_A :
  emitted (__sanitizer_print_memory_profile (mkBuild true true) 100 10)
          (runtime_of two_sites)
  = [EvLock ThreadRegistryLock; EvLock AllocatorLock; EvSuspendThreads;
     EvPrintfHeader 1000 4 0 0 0 4 100 10;
     EvPrintfSite 700 70 1; EvStackPrint 9;
     EvPrintfSite 300 30 3; EvStackPrint 7;
     EvResumeThreads; EvUnlock AllocatorLock; EvUnlock ThreadRegistryLock].
Proof. vm_compute. reflexivity. Qed.

Example scenario_B :
  emitted (__sanitizer_print_memory_profile (mkBuild true true) 100 10)
          (runtime_of with_quarantine)
  = [EvLock ThreadRegistryLock; EvLock AllocatorLock; EvSuspendThreads;
     EvPrintfHeader 1000 4 50 1 2 7 100 10;
     EvPrintfSite 700 70 1; EvStackPrint 9;
     EvPrintfSite 300 30 3; EvStackPrint 7;
     EvResumeThreads; EvUnlock AllocatorLock; EvUnlock ThreadRegistryLock].
Proof. vm_compute. reflexivity. Qed.

(** Allocated chunks of stack id 0 count in the header and in the
    percentages, and have no line of their own. *)
Example unattributed_bytes_in_header :
  site_lines (emitted (__sanitizer_print_memory_profile (mkBuild true true) 100 10)
                      (runtime_of mixed_heap))
  = [(700, 67, 1); (300, 28, 3)]
  ∧ totals (observe mixed_heap) = (1040, 5, 50, 1, 2).
Proof. split; vm_compute; reflexivity. Qed.

Example scenario_C :
  site_lines (emitted (__sanitizer_print_memory_profile (mkBuild true true) 50 10)
                      (runtime_of two_sites))
  = [(700, 70, 1)].
Proof. vm_compute. reflexivity. Qed.

Example scenario_D :
  site_lines (emitted (__sanitizer_print_memory_profile (mkBuild true false) 100 1)
                      (runtime_of two_sites))
  = [(700, 70, 1)].
Proof. vm_compute. reflexivity. Qed.

Example scenario_E :
  ∃ rt', __sanitizer_print_memory_profile (mkBuild true true) 100 10 (runtime_of [])
         = Died rt'
         ∧ trace rt' = [EvLock ThreadRegistryLock; EvLock AllocatorLock; EvSuspendThreads]
         ∧ locks_held rt' = [AllocatorLock; ThreadRegistryLock].
Proof. eexists. split_and!; vm_compute; reflexivity. Qed.

(** ** Where the machine word ends

    The percentage is computed in the word: a product [bytes * 100] of
    2^64 or more is reduced before the division.  The statements above on
    exact percentages carry the bound that keeps the product in the word;
    sizes of chunks of a 64-bit address space stay far below it. *)

Example percent_of_in_range : percent_of 700 1000 = 70.
Proof. reflexivity. Qed.

Example percent_of_beyond_the_word : percent_of (2 ^ 63) (2 ^ 63) = 0.
Proof. reflexivity. Qed.

(** * Further properties of the code *)

(** ** Insert as find-or-insert *)

Lemma find_site_cons i a v :
  find_site i (a :: v)
  = if decide (id a = i) then Some (0%nat, a)
    else prod_map S (λ x, x) <$> find_site i v.
Proof.
  unfold find_site. simpl. case_decide; [done|].
  by destruct (list_find _ v) as [[k b]|].
Qed.

Lemma find_site_Insert_same v i s :
  find_site i (Insert_vec v i s)
  = match find_site i v with
    | Some (k, a) => Some (k, bump a s)
    | None => Some (length v, mkAllocationSite i s 1)
    end.
Proof.
  induction v as [|a v IH].
  - rewrite Insert_vec_nil, find_site_cons. simpl. by case_decide.
  - rewrite Insert_vec_cons, (find_site_cons i a v).
    case_decide as Ha.
    + rewrite find_site_cons. simpl. by case_decide.
    + rewrite find_site_cons. case_decide; [done|]. rewrite IH.
      by destruct (find_site i v) as [[k b]|].
Qed.

Lemma find_site_Insert_other v i s j :
  j ≠ i → find_site j (Insert_vec v i s) = find_site j v.
Proof.
  intros Hne. induction v as [|a v IH].
  - rewrite Insert_vec_nil, find_site_cons. simpl. by case_decide.
  - rewrite Insert_vec_cons. case_decide as Ha.
    + rewrite !find_site_cons. simpl. case_decide; [congruence|done].
    + rewrite !find_site_cons. case_decide; [done|]. by rewrite IH.
Qed.

(** X1: [Insert] is a find-or-insert on any vector, also one with repeated
    ids: a scan for the inserted id afterwards stops at the index where it
    stopped before, on the record with the size added and the count
    incremented, or, when it found nothing before, at the old end of the
    vector on the new record [{id, size, 1}]; a scan for any other id
    gives what it gave before. *)
Theorem Insert_then_scan (hp : HeapProfile) (i s : N) :
  let v := allocations_ hp in
  let v' := allocations_ (Insert hp i s) in
  (∀ k a, find_site i v = Some (k, a) →
          find_site i v'
          = Some (k, mkAllocationSite (id a) (uptr_add (total_size a) s)
                                      (uptr_add (count a) 1)))
  ∧ (find_site i v = None →
     find_site i v' = Some (length v, mkAllocationSite i s 1))
  ∧ (∀ j, j ≠ i → find_site j v' = find_site j v)
  ∧ totals (Insert hp i s) = totals hp.
Proof.
  intros v v'. unfold v', v. simpl. split_and!.
  - intros k a Hf. by rewrite find_site_Insert_same, Hf.
  - intros Hf. by rewrite find_site_Insert_same, Hf.
  - intros j Hj. by apply find_site_Insert_other.
  - done.
Qed.

Lemma Insert_then_scan_witness :
  let hp := observe two_sites in
  find_site 9 (allocations_ hp) = Some (1%nat, mkAllocationSite 9 700 1)
  ∧ find_site 9 (allocations_ (Insert hp 9 24))
    = Some (1%nat, mkAllocationSite 9 724 2)
  ∧ find_site 8 (allocations_ hp) = None
  ∧ find_site 8 (allocations_ (Insert hp 8 24))
    = Some (2%nat, mkAllocationSite 8 24 1)
  ∧ 7 ≠ 8
  ∧ find_site 7 (allocations_ (Insert hp 8 24)) = find_site 7 (allocations_ hp).
Proof.
  intros hp.
  assert (H1 : find_site 9 (allocations_ hp) = Some (1%nat, mkAllocationSite 9 700 1))
    by reflexivity.
  assert (H2 : find_site 8 (allocations_ hp) = None) by reflexivity.
  assert (H3 : 7 ≠ 8) by discriminate.
  split_and!; [exact H1| |exact H2| |exact H3|].
  - exact (proj1 (Insert_then_scan hp 9 24) _ _ H1).
  - exact (proj1 (proj2 (Insert_then_scan hp 8 24)) H2).
  - exact (proj1 (proj2 (proj2 (Insert_then_scan hp 8 24))) 7 H3).
Defined.

(** ** Two chunks in either order *)

Lemma uptr_add_swap x s t : uptr_add (uptr_add x s) t = uptr_add (uptr_add x t) s.
Proof.
  unfold uptr_add. rewrite !wrap_add_l. f_equal. lia.
Qed.

Lemma bump_swap a s t : bump (bump a s) t = bump (bump a t) s.
Proof.
  unfold bump. simpl. f_equal. apply uptr_add_swap.
Qed.

Lemma Insert_vec_swap v i s j t :
  Insert_vec (Insert_vec v i s) j t ≡ₚ Insert_vec (Insert_vec v j t) i s.
Proof.
  induction v as [|a v IH].
  - rewrite !Insert_vec_nil, !Insert_vec_cons, !Insert_vec_nil. simpl.
    destruct (decide (i = j)) as [->|Hij].
    + rewrite !decide_True by done. unfold bump, uptr_add. simpl.
      by rewrite (N.add_comm s t).
    + rewrite !decide_False by congruence. apply Permutation_swap.
  - rewrite !(Insert_vec_cons a v).
    destruct (decide (id a = i)) as [Hi|Hi], (decide (id a = j)) as [Hj|Hj];
      rewrite !Insert_vec_cons; simpl.
    + rewrite !decide_True by done. by rewrite bump_swap.
    + by rewrite decide_False, decide_True by done.
    + by rewrite decide_True, decide_False by done.
    + rewrite !decide_False by done. by rewrite IH.
Qed.

(** X2: from any state of the aggregator, observing two chunks in either
    order gives the same five totals and the same records up to their
    order in the vector. *)
Theorem ProcessChunk_swap (hp : HeapProfile) (cv1 cv2 : AsanChunkView) :
  totals (ProcessChunk (ProcessChunk hp cv1) cv2)
  = totals (ProcessChunk (ProcessChunk hp cv2) cv1)
  ∧ allocations_ (ProcessChunk (ProcessChunk hp cv1) cv2)
    ≡ₚ allocations_ (ProcessChunk (ProcessChunk hp cv2) cv1).
Proof.
  split.
  - rewrite !ProcessChunk_totals.
    pose proof (ProcessChunk_totals hp cv1) as H1.
    pose proof (ProcessChunk_totals hp cv2) as H2.
    unfold totals in H1, H2.
    injection H1 as -> -> -> -> ->. injection H2 as -> -> -> -> ->.
    unfold in_allocated, in_quarantine, in_other.
    destruct (IsAllocated cv1), (IsQuarantined cv1),
      (IsAllocated cv2), (IsQuarantined cv2); simpl; try done;
      by rewrite (uptr_add_swap _ (UsedSize cv1) (UsedSize cv2)).
  - rewrite !ProcessChunk_allocations.
    destruct (IsAllocated cv1 && negb (GetAllocStackId cv1 =? 0)),
      (IsAllocated cv2 && negb (GetAllocStackId cv2 =? 0)); try done.
    apply Insert_vec_swap.
Qed.

(** ** The order of the records *)

Lemma has_site_attributed cv :
  has_site cv = true →
  attributed (GetAllocStackId cv) cv = true ∧ GetAllocStackId cv ≠ 0.
Proof.
  unfold has_site. intros [Hal Hid]%andb_true_iff.
  apply negb_true_iff, N.eqb_neq in Hid. split; [|done].
  by apply attributed_inv.
Qed.

Lemma site_ids_snoc cvs cv :
  site_ids (cvs ++ [cv])
  = site_ids cvs ++ (if has_site cv then [GetAllocStackId cv] else []).
Proof.
  unfold site_ids. rewrite filter_app, fmap_app. f_equal.
  destruct (has_site cv) eqn:Hcv.
  - rewrite filter_cons_True; [done|]. by apply Is_true_true.
  - rewrite filter_cons_False; [done|]. by apply Is_true_false.
Qed.

Lemma elem_of_first_seen i l : i ∈ first_seen l ↔ i ∈ l.
Proof.
  unfold first_seen. by rewrite elem_of_reverse, elem_of_remove_dups, elem_of_reverse.
Qed.

Lemma first_seen_snoc l i :
  first_seen (l ++ [i])
  = if decide (i ∈ first_seen l) then first_seen l else first_seen l ++ [i].
Proof.
  unfold first_seen at 1. rewrite reverse_snoc. simpl.
  case_decide as Hin; case_decide as Hin'; try done; try (by rewrite reverse_cons);
    exfalso; rewrite elem_of_first_seen in *; rewrite elem_of_reverse in *; done.
Qed.

Lemma length_remove_dups (l : list N) : (length (remove_dups l) ≤ length l)%nat.
Proof.
  induction l as [|x l IH]; simpl; [done|]. case_decide; simpl; lia.
Qed.

Lemma observe_ids cvs : id <$> allocations_ (observe cvs) = first_seen (site_ids cvs).
Proof.
  induction cvs as [|cv cvs IH] using rev_ind; [done|].
  rewrite observe_snoc, ProcessChunk_allocations, site_ids_snoc.
  fold (has_site cv). destruct (has_site cv).
  - rewrite Insert_vec_ids by apply observe_sites.
    by rewrite first_seen_snoc, IH.
  - by rewrite app_nil_r.
Qed.

(** X3: the vector keeps its records in the order in which their ids
    first reach [Insert]: its ids are the non-zero stack ids of the
    allocated chunks, each once, in the order of first occurrence; so it
    never holds more records than [Insert] was called. *)
Theorem records_in_first_seen_order (cvs : list AsanChunkView) :
  id <$> allocations_ (observe cvs) = first_seen (site_ids cvs)
  ∧ (∀ i, i ∈ id <$> allocations_ (observe cvs)
          ↔ ∃ cv, cv ∈ cvs ∧ IsAllocated cv = true
                  ∧ GetAllocStackId cv = i ∧ i ≠ 0)
  ∧ (length (allocations_ (observe cvs)) ≤ length (site_ids cvs))%nat.
Proof.
  pose proof (observe_ids cvs) as Hids. split_and!.
  - done.
  - intros i. rewrite Hids, elem_of_first_seen. unfold site_ids.
    rewrite list_elem_of_fmap. split.
    + intros (cv & -> & [Hs Hcv]%list_elem_of_filter).
      apply Is_true_true, has_site_attributed in Hs as [Ha Hne].
      apply attributed_inv in Ha as [Hal _]. by exists cv.
    + intros (cv & Hcv & Hal & <- & Hne). exists cv. split; [done|].
      apply list_elem_of_filter. split; [|done].
      apply Is_true_true. unfold has_site. rewrite Hal. simpl.
      by apply negb_true_iff, N.eqb_neq.
  - rewrite <-(length_fmap id), Hids. unfold first_seen.
    rewrite length_reverse. etrans; [apply length_remove_dups|].
    by rewrite length_reverse.
Qed.

(** ** Chunks that are not allocated *)

Lemma observe_filter_allocations (keep : AsanChunkView → bool) cvs :
  (∀ cv, has_site cv = true → keep cv = true) →
  allocations_ (observe (filter (λ cv, keep cv) cvs)) = allocations_ (observe cvs).
Proof.
  intros Hkeep. induction cvs as [|cv cvs IH] using rev_ind; [done|].
  rewrite filter_app, observe_snoc, ProcessChunk_allocations.
  fold (has_site cv). destruct (keep cv) eqn:Hk.
  - rewrite filter_cons_True by by apply Is_true_true.
    rewrite filter_nil, observe_snoc, ProcessChunk_allocations.
    fold (has_site cv). by rewrite IH.
  - rewrite filter_cons_False by by apply Is_true_false.
    rewrite filter_nil, app_nil_r, IH.
    destruct (has_site cv) eqn:Hs; [|done].
    apply Hkeep in Hs. congruence.
Qed.

Lemma tally_filter (keep : AsanChunkView → bool) w cvs :
  (∀ cv, keep cv = false → w cv = 0) →
  tally w (filter (λ cv, keep cv) cvs) = tally w cvs.
Proof.
  intros Hw. induction cvs as [|cv cvs IH]; [done|].
  destruct (keep cv) eqn:Hk.
  - rewrite filter_cons_True by by apply Is_true_true. simpl. by rewrite IH.
  - rewrite filter_cons_False by by apply Is_true_false. simpl.
    rewrite IH, (Hw cv Hk). lia.
Qed.

Lemma site_lines_depend_on hp1 hp2 top max rt1 rt2 :
  total_allocated_user_size_ hp1 = total_allocated_user_size_ hp2 →
  allocations_ hp1 = allocations_ hp2 →
  site_lines (emitted (Print hp1 top max) rt1)
  = site_lines (emitted (Print hp2 top max) rt2).
Proof.
  intros Ht Hv.
  destruct (decide (total_allocated_user_size_ hp1 = 0)) as [H0|Hne].
  - rewrite !Print_lines_none; [done|congruence|done].
  - rewrite !Print_lines by congruence. by rewrite Ht, Hv.
Qed.

(** X4: chunks that are not allocated leave no mark on the ranked part of
    the report: the profile of a heap and the profile of its allocated
    chunks alone have the same allocated bytes and count, the same vector
    of records (order included) and the same site lines, whatever the
    parameters; and the vector only depends on the allocated chunks with a
    non-zero stack id. *)
Theorem unallocated_chunks_leave_no_mark
        (cvs : list AsanChunkView) (top max : N) (rt : Runtime) :
  let live := filter (λ cv, IsAllocated cv) cvs in
  total_allocated_user_size_ (observe live) = total_allocated_user_size_ (observe cvs)
  ∧ total_allocated_count_ (observe live) = total_allocated_count_ (observe cvs)
  ∧ allocations_ (observe live) = allocations_ (observe cvs)
  ∧ site_lines (emitted (Print (observe live) top max) rt)
    = site_lines (emitted (Print (observe cvs) top max) rt)
  ∧ allocations_ (observe (filter (λ cv, has_site cv) cvs)) = allocations_ (observe cvs).
Proof.
  intros live.
  assert (Hv : allocations_ (observe live) = allocations_ (observe cvs)).
  { apply observe_filter_allocations. unfold has_site.
    by intros cv [? _]%andb_true_iff. }
  pose proof (observe_totals live) as Hl.
  pose proof (observe_totals cvs) as Hc.
  unfold totals in Hl, Hc. injection Hl as Hl1 Hl2 _ _ _. injection Hc as Hc1 Hc2 _ _ _.
  assert (Hb : total_allocated_user_size_ (observe live)
               = total_allocated_user_size_ (observe cvs)).
  { rewrite Hl1, Hc1. unfold allocated_bytes, live. f_equal.
    apply tally_filter. intros cv Hk. unfold bytes_if, in_allocated. by rewrite Hk. }
  split_and!.
  - done.
  - rewrite Hl2, Hc2. unfold allocated_chunks, live. f_equal.
    apply tally_filter. intros cv Hk. unfold one_if, in_allocated. by rewrite Hk.
  - done.
  - by apply site_lines_depend_on.
  - by apply observe_filter_allocations.
Qed.

(** ** The counts of the records *)

Lemma Insert_vec_counts_wrap v i s :
  wrap (sum_counts (Insert_vec v i s)) = wrap (sum_counts v + 1).
Proof.
  induction v as [|a v IH].
  - by rewrite Insert_vec_nil.
  - rewrite Insert_vec_cons. case_decide as Ha; simpl.
    + unfold uptr_add. rewrite wrap_add_l. f_equal. lia.
    + rewrite <-wrap_add_r, IH, wrap_add_r. f_equal. lia.
Qed.

Lemma Insert_vec_counts_exact v i s :
  sum_counts v + 1 < uptr_modulus →
  sum_counts (Insert_vec v i s) = sum_counts v + 1.
Proof.
  induction v as [|a v IH]; intros Hfit.
  - by rewrite Insert_vec_nil.
  - rewrite Insert_vec_cons. simpl in Hfit. case_decide as Ha; simpl.
    + rewrite uptr_add_small by lia. lia.
    + rewrite IH by lia. lia.
Qed.

Lemma unattributed_chunks_snoc cvs cv :
  unattributed_chunks (cvs ++ [cv]) = unattributed_chunks cvs + one_if (attributed 0) cv.
Proof. apply tally_snoc. Qed.

Lemma allocated_chunks_snoc cvs cv :
  allocated_chunks (cvs ++ [cv]) = allocated_chunks cvs + one_if in_allocated cv.
Proof. apply tally_snoc. Qed.

Lemma chunk_count_cases cv :
  (has_site cv = true
   ∧ one_if in_allocated cv = 1 ∧ one_if (attributed 0) cv = 0)
  ∨ (has_site cv = false
     ∧ one_if in_allocated cv = one_if (attributed 0) cv).
Proof.
  unfold has_site, one_if, in_allocated, attributed.
  destruct (IsAllocated cv); simpl; [|by right].
  destruct (GetAllocStackId cv =? 0); simpl; [by right|by left].
Qed.

Lemma count_attribution_wrap cvs :
  wrap (sum_counts (allocations_ (observe cvs)) + unattributed_chunks cvs)
  = wrap (allocated_chunks cvs).
Proof.
  induction cvs as [|cv cvs IH] using rev_ind; [done|].
  rewrite observe_snoc, ProcessChunk_allocations, unattributed_chunks_snoc,
    allocated_chunks_snoc. fold (has_site cv).
  destruct (chunk_count_cases cv) as [(-> & -> & ->)|(-> & ->)].
  - rewrite N.add_0_r, <-wrap_add_l, Insert_vec_counts_wrap, wrap_add_l.
    rewrite <-(wrap_add_l (allocated_chunks cvs)), <-IH, wrap_add_l.
    f_equal. lia.
  - rewrite N.add_assoc, <-wrap_add_l, IH, wrap_add_l. done.
Qed.

Lemma count_attribution_exact cvs :
  allocated_chunks cvs < uptr_modulus →
  sum_counts (allocations_ (observe cvs)) + unattributed_chunks cvs
  = allocated_chunks cvs.
Proof.
  induction cvs as [|cv cvs IH] using rev_ind; [done|].
  rewrite observe_snoc, ProcessChunk_allocations, unattributed_chunks_snoc,
    allocated_chunks_snoc. fold (has_site cv).
  intros Hfit.
  destruct (chunk_count_cases cv) as [(-> & Hs & ->)|(-> & Hs)]; rewrite Hs in *.
  - rewrite Insert_vec_counts_exact; lia.
  - lia.
Qed.

Lemma site_chunks_le_allocated i cvs : site_chunks i cvs ≤ allocated_chunks cvs.
Proof.
  unfold site_chunks, allocated_chunks.
  induction cvs as [|cv cvs IH]; simpl; [done|].
  assert (one_if (attributed i) cv ≤ one_if in_allocated cv); [|lia].
  unfold one_if, attributed, in_allocated.
  destruct (IsAllocated cv); simpl; [|done].
  destruct (GetAllocStackId cv =? i); lia.
Qed.

Lemma allocated_chunks_le_length cvs : allocated_chunks cvs ≤ N.of_nat (length cvs).
Proof. pose proof (chunks_total cvs). lia. Qed.

(** X5: the counts of the records, summed, plus the number of allocated
    chunks with stack id 0, make up the count of allocated chunks: as
    numbers of the machine word in every case; and when the number of
    chunks fits the word, as plain numbers, with every record counting at
    least one chunk and exactly the allocated chunks of its id. *)
Theorem count_attribution (cvs : list AsanChunkView) :
  wrap (sum_counts (allocations_ (observe cvs)) + unattributed_chunks cvs)
  = total_allocated_count_ (observe cvs)
  ∧ (N.of_nat (length cvs) < uptr_modulus →
     sum_counts (allocations_ (observe cvs)) + unattributed_chunks cvs
     = total_allocated_count_ (observe cvs)
     ∧ ∀ a, a ∈ allocations_ (observe cvs) →
            1 ≤ count a ∧ count a = site_chunks (id a) cvs).
Proof.
  pose proof (counters_closed cvs) as Hc. unfold counters in Hc.
  injection Hc as Hc _ _. rewrite Hc.
  split; [apply count_attribution_wrap|].
  intros Hfit. pose proof (allocated_chunks_le_length cvs) as Hle.
  rewrite wrap_small by lia. split; [apply count_attribution_exact; lia|].
  intros a (Ha0 & Han & Ha)%observe_sites.
  pose proof (site_chunks_le_allocated (id a) cvs) as Hs.
  assert (Hcnt : count a = wrap (site_chunks (id a) cvs)) by by rewrite Ha at 1.
  rewrite Hcnt, wrap_small by lia. lia.
Qed.

Lemma count_attribution_witness :
  N.of_nat (length mixed_heap) < uptr_modulus
  ∧ sum_counts (allocations_ (observe mixed_heap)) + unattributed_chunks mixed_heap = 5
  ∧ mkAllocationSite 7 300 3 ∈ allocations_ (observe mixed_heap)
  ∧ 3 = site_chunks 7 mixed_heap.
Proof.
  assert (H : N.of_nat (length mixed_heap) < uptr_modulus) by (vm_compute; reflexivity).
  assert (Ha : mkAllocationSite 7 300 3 ∈ allocations_ (observe mixed_heap))
    by apply list_elem_of_here.
  split_and!; [exact H| |exact Ha|].
  - exact (proj1 (proj2 (count_attribution mixed_heap) H)).
  - exact (proj2 (proj2 (proj2 (count_attribution mixed_heap) H) _ Ha)).
Defined.

(** ** The whole output of Print *)

Lemma visited_take total top shown v :
  ∃ n : nat, (n ≤ length v)%nat ∧ visited total top shown v = take n v.
Proof.
  destruct (visited_spec total top v shown) as (n & Hv & Hn & _). by exists n.
Qed.

Lemma stack_ids_rounds total l : stack_ids (l ≫= round total) = id <$> l.
Proof.
  induction l as [|a l IH]; [done|].
  rewrite bind_cons, fmap_cons, <-IH. unfold stack_ids.
  by rewrite omap_app.
Qed.

Lemma length_rounds total (l : list AllocationSite) :
  length (l ≫= round total) = (2 * length l)%nat.
Proof.
  induction l as [|a l IH]; [done|].
  rewrite bind_cons, length_app, IH. simpl. lia.
Qed.

(** The events of a run of [Print] that gets past its CHECK. *)
Lemma Print_emitted hp top max rt :
  total_allocated_user_size_ hp ≠ 0 →
  let total := total_allocated_user_size_ hp in
  let sorted := Sort by_total_size_desc (allocations_ hp) in
  ∃ n : nat,
    (n ≤ N.to_nat (loop_bound sorted max))%nat
    ∧ emitted (Print hp top max) rt
      = header hp top max :: (take n sorted ≫= round total).
Proof.
  intros Hne total sorted.
  rewrite (emitted_Done _ _ _ _ (Print_run hp top max rt Hne)).
  fold total sorted.
  destruct (visited_take total top 0 (take (N.to_nat (loop_bound sorted max)) sorted))
    as (n & Hn & ->).
  rewrite length_take in Hn. exists n. split; [lia|].
  rewrite take_take. do 3 f_equal. lia.
Qed.

(** X6: the output of a run of [Print] with allocated bytes is one header
    line followed, for each site line, by that line and then the stack of
    the same record, and nothing else: 1 + 2n events for n site lines, the
    stacks printed being those of the first n records of the sorted
    vector, in that order. *)
Theorem report_shape (hp : HeapProfile) (top max : N) (rt : Runtime) :
  total_allocated_user_size_ hp ≠ 0 →
  let total := total_allocated_user_size_ hp in
  let sorted := Sort by_total_size_desc (allocations_ hp) in
  let out := emitted (Print hp top max) rt in
  let n := length (site_lines out) in
  out = EvPrintfHeader
          (total_allocated_user_size_ hp) (total_allocated_count_ hp)
          (total_quarantined_user_size_ hp) (total_quarantined_count_ hp)
          (total_other_count_ hp)
          (uptr_add (uptr_add (total_allocated_count_ hp)
                              (total_quarantined_count_ hp))
                    (total_other_count_ hp))
          top max
        :: (take n sorted ≫= λ a,
              [EvPrintfSite (total_size a) (percent_of (total_size a) total) (count a);
               EvStackPrint (id a)])
  ∧ stack_ids out = id <$> take n sorted
  ∧ length out = S (2 * n)
  ∧ protocol_events out = [].
Proof.
  intros Hne total sorted out n.
  destruct (Print_emitted hp top max rt Hne) as (m & Hm & Hout).
  fold total sorted out in Hout, Hm.
  assert (Hmn : n = m).
  { unfold n. rewrite Hout. change (header hp top max :: ?l) with ([header hp top max] ++ l).
    unfold site_lines. rewrite omap_app. simpl.
    fold (site_lines (take m sorted ≫= round total)).
    rewrite site_lines_rounds, length_fmap, length_take.
    unfold loop_bound in Hm. lia. }
  rewrite Hmn, Hout. split_and!.
  - done.
  - change (header hp top max :: ?l) with ([header hp top max] ++ l).
    unfold stack_ids. rewrite omap_app. simpl.
    apply stack_ids_rounds.
  - simpl. rewrite length_rounds, length_take.
    unfold loop_bound in Hm. lia.
  - rewrite protocol_events_cons. simpl. apply protocol_events_rounds.
Qed.

Lemma report_shape_witness :
  let hp := observe two_sites in
  let rt := runtime_of two_sites in
  total_allocated_user_size_ hp ≠ 0
  ∧ stack_ids (emitted (Print hp 50 10) rt) = [9]
  ∧ length (emitted (Print hp 50 10) rt) = 3%nat.
Proof.
  intros hp rt.
  assert (H0 : total_allocated_user_size_ hp ≠ 0) by discriminate.
  split_and!; [exact H0| |].
  - exact (proj1 (proj2 (report_shape hp 50 10 rt H0))).
  - exact (proj1 (proj2 (proj2 (report_shape hp 50 10 rt H0)))).
Defined.

(** X7: for a profile built from chunks, [Print] never asks for the stack
    of id 0 and never prints the stack of one id twice: the ids whose
    stacks are printed are distinct, non-zero, and each the allocation
    stack id of an allocated chunk that was observed. *)
Theorem printed_stacks_are_sites
        (cvs : list AsanChunkView) (top max : N) (rt : Runtime) :
  let ids := stack_ids (emitted (Print (observe cvs) top max) rt) in
  NoDup ids
  ∧ (0 ∉ ids)
  ∧ (∀ i, i ∈ ids → ∃ cv, cv ∈ cvs ∧ IsAllocated cv = true ∧ GetAllocStackId cv = i)
  ∧ length ids = length (site_lines (emitted (Print (observe cvs) top max) rt)).
Proof.
  intros ids.
  destruct (decide (total_allocated_user_size_ (observe cvs) = 0)) as [H0|Hne].
  { unfold ids. rewrite (emitted_Died _ _ (Print_dies _ top max rt H0)).
    split_and!; [constructor|by intros ?%elem_of_nil| |done].
    by intros i ?%elem_of_nil. }
  destruct (Print_emitted (observe cvs) top max rt Hne) as (n & Hn & Hout).
  set (sorted := Sort by_total_size_desc (allocations_ (observe cvs))) in *.
  assert (Hids : ids = id <$> take n sorted).
  { unfold ids. rewrite Hout.
    change (header ?h ?t ?m :: ?l) with ([header h t m] ++ l).
    unfold stack_ids. rewrite omap_app. simpl. apply stack_ids_rounds. }
  assert (Hsub : ∀ i, i ∈ ids → i ∈ id <$> allocations_ (observe cvs)).
  { intros i. rewrite Hids. intros (a & -> & Ha)%list_elem_of_fmap.
    apply elem_of_take_1 in Ha. unfold sorted in Ha. rewrite Sort_Permutation in Ha.
    apply list_elem_of_fmap. by exists a. }
  split_and!.
  - rewrite Hids, fmap_take. eapply sublist_NoDup; [|apply sublist_take].
    unfold sorted. rewrite Sort_Permutation. apply observe_sites.
  - intros H0%Hsub. by apply zero_not_tracked in H0.
  - intros i (a & -> & Ha)%Hsub%list_elem_of_fmap.
    apply observe_sites in Ha as (Ha0 & Han & _).
    unfold site_chunks in Han.
    clear -Han. induction cvs as [|cv cvs IH]; [done|].
    simpl in Han. unfold one_if at 1 in Han.
    destruct (attributed (id a) cv) eqn:Hatt.
    + apply attributed_inv in Hatt as [Hal Hid]. exists cv.
      split_and!; [by left|done|done].
    + destruct IH as (cv' & Hin & ? & ?); [by rewrite N.add_0_l in Han|].
      exists cv'. split_and!; [by right|done|done].
  - rewrite Hids. unfold ids. rewrite Hout.
    change (header ?h ?t ?m :: ?l) with ([header h t m] ++ l).
    unfold site_lines. rewrite omap_app. simpl.
    fold (site_lines (take n sorted ≫= round (total_allocated_user_size_ (observe cvs)))).
    by rewrite site_lines_rounds, !length_fmap.
Qed.

(** ** What the selection keeps *)

(** X8: the site lines are the top of the ranking: every record left out
    of the report is no larger than any record shown; and whenever there
    is a record, allocated bytes and a bound of at least one, the report
    has a first site line, whatever [top_percent], and no record is larger
    than it. *)
Theorem shown_records_are_the_largest (hp : HeapProfile) (top max : N) (rt : Runtime) :
  let total := total_allocated_user_size_ hp in
  let sorted := Sort by_total_size_desc (allocations_ hp) in
  let lines := site_lines (emitted (Print hp top max) rt) in
  let n := length lines in
  take n sorted ++ drop n sorted ≡ₚ allocations_ hp
  ∧ lines = line_of total <$> take n sorted
  ∧ (∀ l b, l ∈ lines → b ∈ drop n sorted → total_size b ≤ line_bytes l)
  ∧ (total ≠ 0 → allocations_ hp ≠ [] → max ≠ 0 →
     ∃ l rest, lines = l :: rest
               ∧ ∀ a, a ∈ allocations_ hp → total_size a ≤ line_bytes l).
Proof.
  intros total sorted lines n.
  assert (Hs : StronglySorted size_desc sorted) by apply Sort_size_desc.
  assert (Hp : sorted ≡ₚ allocations_ hp) by apply Sort_Permutation.
  assert (Hlines : lines = line_of total <$> take n sorted).
  { destruct (decide (total = 0)) as [H0|Hne].
    - unfold n, lines. by rewrite Print_lines_none.
    - destruct (Print_lines_prefix hp top max rt Hne) as (m & Hm & Hle & _).
      fold total sorted lines in Hm, Hle.
      assert (n = m) as ->; [|done].
      unfold n. rewrite Hm, length_fmap, length_take. unfold loop_bound in Hle. lia. }
  split_and!.
  - by rewrite take_drop.
  - done.
  - intros l b Hl Hb. rewrite Hlines in Hl.
    apply list_elem_of_fmap in Hl as (a & -> & Ha).
    rewrite <-(take_drop n sorted) in Hs.
    exact (StronglySorted_app_1_elem_of _ _ _ _ _ Hs Ha Hb).
  - intros Hne Hrec Hmax.
    destruct (Print_lines_prefix hp top max rt Hne) as (m & Hm & Hle & _ & Hstop).
    fold total sorted lines in Hm, Hle, Hstop.
    assert (Hlen : length sorted ≠ 0%nat).
    { rewrite (Permutation_length Hp). by destruct (allocations_ hp). }
    assert (Hm0 : m ≠ 0%nat).
    { intros ->. destruct Hstop as (k & Hk & _); [|done].
      unfold loop_bound. lia. }
    destruct sorted as [|a sorted'] eqn:Hsorted; [done|].
    destruct m as [|m']; [done|].
    rewrite Hm. simpl. eexists _, _. split; [done|].
    intros b Hb. rewrite <-Hp in Hb.
    apply StronglySorted_inv in Hs as [_ Hall].
    apply elem_of_cons in Hb as [->|Hb]; [done|].
    rewrite Forall_forall in Hall. by apply Hall.
Qed.

Lemma shown_records_are_the_largest_witness :
  let hp := observe two_sites in
  let rt := runtime_of two_sites in
  (700, 70, 1) ∈ site_lines (emitted (Print hp 50 10) rt)
  ∧ mkAllocationSite 7 300 3
    ∈ drop (length (site_lines (emitted (Print hp 50 10) rt)))
           (Sort by_total_size_desc (allocations_ hp))
  ∧ total_size (mkAllocationSite 7 300 3) ≤ line_bytes (700, 70, 1).
Proof.
  intros hp rt.
  assert (H1 : (700, 70, 1) ∈ site_lines (emitted (Print hp 50 10) rt))
    by apply list_elem_of_here.
  assert (H2 : mkAllocationSite 7 300 3
               ∈ drop (length (site_lines (emitted (Print hp 50 10) rt)))
                      (Sort by_total_size_desc (allocations_ hp)))
    by apply list_elem_of_here.
  split_and!; [exact H1|exact H2|].
  exact (proj1 (proj2 (proj2 (shown_records_are_the_largest hp 50 10 rt))) _ _ H1 H2).
Defined.

Lemma visited_prefix_mono total top top' shown v (m m' : nat) :
  top ≤ top' → (m ≤ m')%nat →
  visited total top shown (take m v) `prefix_of` visited total top' shown (take m' v).
Proof.
  intros Htop. revert shown m m'.
  induction v as [|a v IH]; intros shown m m' Hm.
  - rewrite !take_nil. done.
  - destruct m as [|m]; [apply prefix_nil|].
    destruct m' as [|m']; [lia|]. simpl.
    apply prefix_cons.
    destruct (N.ltb_spec top (percent_of (uptr_add shown (total_size a)) total)) as [Hx|Hx];
      [apply prefix_nil|].
    destruct (N.ltb_spec top' (percent_of (uptr_add shown (total_size a)) total)) as [Hx'|Hx'];
      [lia|].
    apply IH. lia.
Qed.

(** X9: asking for more never shows less: when [top_percent] and
    [max_number_of_contexts] are both raised or kept, the site lines of
    the old report are the first site lines of the new one. *)
Theorem selection_grows_with_parameters
        (hp : HeapProfile) (top top' max max' : N) (rt rt' : Runtime) :
  top ≤ top' → max ≤ max' →
  site_lines (emitted (Print hp top max) rt)
    `prefix_of` site_lines (emitted (Print hp top' max') rt').
Proof.
  intros Htop Hmax.
  destruct (decide (total_allocated_user_size_ hp = 0)) as [H0|Hne].
  { rewrite Print_lines_none by done. apply prefix_nil. }
  rewrite !Print_lines by done.
  set (sorted := Sort by_total_size_desc (allocations_ hp)).
  destruct (visited_prefix_mono (total_allocated_user_size_ hp) top top' 0 sorted
              (N.to_nat (loop_bound sorted max)) (N.to_nat (loop_bound sorted max')))
    as [k Hk]; [done|unfold loop_bound; lia|].
  rewrite Hk, fmap_app. by eexists.
Qed.

Lemma selection_grows_with_parameters_witness :
  let hp := observe two_sites in
  let rt := runtime_of two_sites in
  50 ≤ 100 ∧ 1 ≤ 10
  ∧ site_lines (emitted (Print hp 50 1) rt) = [(700, 70, 1)]
  ∧ site_lines (emitted (Print hp 100 10) rt) = [(700, 70, 1); (300, 30, 3)]
  ∧ site_lines (emitted (Print hp 50 1) rt)
      `prefix_of` site_lines (emitted (Print hp 100 10) rt).
Proof.
  intros hp rt.
  assert (H1 : 50 ≤ 100) by (vm_compute; discriminate).
  assert (H2 : 1 ≤ 10) by (vm_compute; discriminate).
  split_and!; [exact H1|exact H2|reflexivity|reflexivity|].
  exact (selection_grows_with_parameters hp 50 100 1 10 rt rt H1 H2).
Defined.

(** ** Percentages add up *)

Lemma div_add_le a b t : a / t + b / t ≤ (a + b) / t.
Proof.
  destruct (decide (t = 0)) as [->|Ht].
  - by rewrite !N.div_0_r.
  - apply N.div_le_lower_bound; [done|].
    pose proof (N.Div0.mul_div_le a t). pose proof (N.Div0.mul_div_le b t). lia.
Qed.

Lemma sum_percent_lines total v :
  sum_percent (line_of total <$> v) ≤ sum_sizes v * 100 / total.
Proof.
  induction v as [|a v IH].
  - simpl. by rewrite N.Div0.div_0_l.
  - change (sum_percent (line_of total <$> a :: v))
      with (percent_of (total_size a) total + sum_percent (line_of total <$> v)).
    change (sum_sizes (a :: v)) with (total_size a + sum_sizes v).
    pose proof (percent_of_le (total_size a) total).
    pose proof (div_add_le (total_size a * 100) (sum_sizes v * 100) total).
    replace ((total_size a + sum_sizes v) * 100)
      with (total_size a * 100 + sum_sizes v * 100) by lia.
    lia.
Qed.

(** X10: for a heap whose allocated bytes fit the machine word, no site
    line shows more than 100 percent and the percentages of all the site
    lines of a report add up to at most 100. *)
Theorem percentages_add_up_to_at_most_100
        (cvs : list AsanChunkView) (top max : N) (rt : Runtime) :
  allocated_bytes cvs < uptr_modulus →
  let lines := site_lines (emitted (Print (observe cvs) top max) rt) in
  sum_percent lines ≤ 100
  ∧ ∀ l, l ∈ lines → line_percent l ≤ 100 ∧ line_bytes l ≤ allocated_bytes cvs.
Proof.
  intros Hfit lines.
  set (hp := observe cvs). set (total := total_allocated_user_size_ hp).
  assert (Htotal : total = allocated_bytes cvs).
  { unfold total, hp. rewrite allocated_total. by apply wrap_small. }
  destruct (decide (total = 0)) as [H0|Hne].
  { unfold lines. rewrite Print_lines_none by done. split; [done|].
    by intros l ?%elem_of_nil. }
  assert (Hsum : sum_sizes (allocations_ hp) ≤ total).
  { pose proof (attribution_exact cvs Hfit). fold hp in H. lia. }
  destruct (Print_lines_prefix hp top max rt Hne) as (n & Hn' & _).
  set (sorted := Sort by_total_size_desc (allocations_ hp)) in *.
  assert (Hn : lines = line_of total <$> take n sorted) by exact Hn'.
  clearbody lines. clear Hn'.
  assert (Hsorted : sum_sizes sorted = sum_sizes (allocations_ hp)).
  { apply sum_sizes_Permutation, Sort_Permutation. }
  pose proof (sum_sizes_take n sorted) as Htake.
  assert (Hbound : ∀ x, x ≤ total → x * 100 / total ≤ 100).
  { intros x Hx. trans (total * 100 / total).
    - apply N.Div0.div_le_mono. lia.
    - by rewrite N.mul_comm, N.div_mul. }
  split.
  - rewrite Hn. etrans; [apply sum_percent_lines|]. apply Hbound. lia.
  - intros l Hl. rewrite Hn in Hl. apply list_elem_of_fmap in Hl as (a & -> & Ha).
    unfold line_of, line_percent, line_bytes. simpl.
    apply elem_of_take_1 in Ha. unfold sorted in Ha. rewrite Sort_Permutation in Ha.
    assert (total_size a ≤ sum_sizes (allocations_ hp)).
    { clear -Ha. induction Ha as [a v|a b v _ IH]; simpl; lia. }
    split; [|lia].
    etrans; [apply percent_of_le|]. apply Hbound. lia.
Qed.

Lemma percentages_add_up_to_at_most_100_witness :
  allocated_bytes mixed_heap < uptr_modulus
  ∧ site_lines (emitted (Print (observe mixed_heap) 100 10) (runtime_of mixed_heap))
    = [(700, 67, 1); (300, 28, 3)]
  ∧ sum_percent (site_lines (emitted (Print (observe mixed_heap) 100 10)
                                     (runtime_of mixed_heap))) ≤ 100.
Proof.
  assert (H : allocated_bytes mixed_heap < uptr_modulus) by (vm_compute; reflexivity).
  split_and!; [exact H|reflexivity|].
  exact (proj1 (percentages_add_up_to_at_most_100 mixed_heap 100 10
                  (runtime_of mixed_heap) H)).
Defined.

(** ** The header line *)

(** X11: the header of the report of a heap carries, in this order, the
    bytes and the number of its allocated chunks, the bytes and the number
    of its chunks that are quarantined and not allocated, the number of
    its other chunks, the number of all its chunks, and the two
    parameters, each number reduced to the machine word; it is the first
    event written and the only header. *)
Theorem header_reports_the_heap
        (cvs : list AsanChunkView) (top max : N) (rt : Runtime) :
  total_allocated_user_size_ (observe cvs) ≠ 0 →
  ∃ rest,
    emitted (Print (observe cvs) top max) rt
    = EvPrintfHeader
        (wrap (allocated_bytes cvs)) (wrap (allocated_chunks cvs))
        (wrap (quarantined_bytes cvs)) (wrap (quarantined_chunks cvs))
        (wrap (other_chunks cvs)) (wrap (N.of_nat (length cvs)))
        top max :: rest
    ∧ ∀ e, e ∈ rest → ∃ b p c i, e = EvPrintfSite b p c ∨ e = EvStackPrint i.
Proof.
  intros Hne.
  destruct (Print_emitted (observe cvs) top max rt Hne) as (n & _ & Hout).
  rewrite Hout. eexists. split.
  - f_equal. unfold header.
    pose proof (observe_totals cvs) as Ht. unfold totals in Ht.
    injection Ht as -> -> -> -> ->.
    f_equal. unfold uptr_add.
    rewrite <-(chunks_total cvs), wrap_add_l. apply wrap_add3.
  - intros e (a & He & Ha)%list_elem_of_bind.
    unfold round in He.
    apply elem_of_cons in He as [->|He]; [by eexists _, _, _, 0; left|].
    apply list_elem_of_singleton in He as ->. by eexists 0, 0, 0, _; right.
Qed.

Lemma header_reports_the_heap_witness :
  total_allocated_user_size_ (observe with_quarantine) ≠ 0
  ∧ emitted (Print (observe with_quarantine) 100 10) (runtime_of with_quarantine) !! 0%nat
    = Some (EvPrintfHeader 1000 4 50 1 2 7 100 10).
Proof.
  assert (H0 : total_allocated_user_size_ (observe with_quarantine) ≠ 0) by discriminate.
  split; [exact H0|].
  destruct (header_reports_the_heap with_quarantine 100 10
              (runtime_of with_quarantine) H0) as (rest & -> & _).
  reflexivity.
Defined.

(** ** The entry point, end to end *)

(** X12: under dl_iterate_phdr the coordinator runs for the first loaded
    module and for no other, because its callback returns 1: with at least
    one module the platforms with module iteration behave exactly as the
    ones without, however many modules follow; with no module nothing runs
    at all. *)
Theorem coordinator_runs_for_first_module_only
        (b : Build) (cb : StopTheWorldCallback) (arg : N * N) (rt : Runtime) :
  SANITIZER_LINUX_OR_NETBSD b = true →
  LockStuffAndStopTheWorld b cb arg rt
  = match loaded_modules rt with
    | [] => Done tt rt
    | _ :: _ => LockDefStuffAndStopTheWorld (mkParam cb arg) rt
    end.
Proof.
  intros Hb. destruct (loaded_modules rt) as [|m ms] eqn:Hmods.
  - unfold LockStuffAndStopTheWorld. rewrite Hb.
    unfold dl_iterate_phdr, bind. by rewrite Hmods.
  - apply LockStuffAndStopTheWorld_run. intros _. by rewrite Hmods.
Qed.

Lemma coordinator_runs_for_first_module_only_witness :
  let b := mkBuild true true in
  let rt := runtime_of two_sites in
  let rt3 := mkRuntime (heap_chunks rt) (chunk_at rt) (threads rt) [0; 1; 2]
                       (verbosity rt) (locks_held rt) (trace rt) in
  SANITIZER_LINUX_OR_NETBSD b = true
  ∧ LockStuffAndStopTheWorld b MemoryProfileCB (100, 10) rt3
    = LockDefStuffAndStopTheWorld (mkParam MemoryProfileCB (100, 10)) rt3
  ∧ acquisitions (emitted (LockStuffAndStopTheWorld b MemoryProfileCB (100, 10)) rt3)
    = [ThreadRegistryLock; AllocatorLock].
Proof.
  intros b rt rt3.
  assert (Hb : SANITIZER_LINUX_OR_NETBSD b = true) by reflexivity.
  split_and!; [exact Hb| |vm_compute; reflexivity].
  rewrite (coordinator_runs_for_first_module_only b MemoryProfileCB (100, 10) rt3 Hb).
  reflexivity.
Defined.


Lemma heap_views_world_stopped rt : heap_views (world_stopped rt) = heap_views rt.
Proof. done. Qed.

Lemma MemoryProfileCB_world_stopped ts arg rt :
  let hp := observe (heap_views rt) in
  MemoryProfileCB ts arg (world_stopped rt) =
  match Print hp arg.1 arg.2 (world_stopped rt) with
  | Done _ rt1 =>
      if (verbosity rt1 =? 0)%Z then Done tt rt1
      else Done tt (set_trace rt1 (trace rt1 ++ [EvPrintAccumulatedStats]))
  | Died rt1 => Died rt1
  end.
Proof. apply MemoryProfileCB_run. Qed.

(** X13: a profile of a heap without allocated bytes aborts inside the
    stopped world: the process dies after the two locks were taken and the
    threads suspended, with nothing of the report written, no thread
    resumed and both locks still held. *)
Theorem abort_happens_inside_the_stopped_world
        (b : Build) (top max : N) (rt : Runtime) :
  CAN_SANITIZE_LEAKS b = true →
  (SANITIZER_LINUX_OR_NETBSD b = true → loaded_modules rt ≠ []) →
  total_allocated_user_size_ (observe (heap_views rt)) = 0 →
  ∃ rt',
    __sanitizer_print_memory_profile b top max rt = Died rt'
    ∧ trace rt' = trace rt ++ [EvLock ThreadRegistryLock; EvLock AllocatorLock;
                               EvSuspendThreads]
    ∧ locks_held rt' = AllocatorLock :: ThreadRegistryLock :: locks_held rt.
Proof.
  intros Hb Hmods H0. exists (world_stopped rt).
  split; [|done].
  rewrite profile_run, LockDefStuffAndStopTheWorld_run by done. simpl.
  rewrite MemoryProfileCB_world_stopped. simpl.
  by rewrite Print_dies.
Qed.

Lemma abort_happens_inside_the_stopped_world_witness :
  let b := mkBuild true true in
  let rt := runtime_of [mkChunkView false true 50 3; invalid_chunk] in
  CAN_SANITIZE_LEAKS b = true
  ∧ (SANITIZER_LINUX_OR_NETBSD b = true → loaded_modules rt ≠ [])
  ∧ total_allocated_user_size_ (observe (heap_views rt)) = 0
  ∧ ∃ rt', __sanitizer_print_memory_profile b 100 10 rt = Died rt'
           ∧ locks_held rt' = AllocatorLock :: ThreadRegistryLock :: locks_held rt.
Proof.
  intros b rt.
  assert (H1 : CAN_SANITIZE_LEAKS b = true) by reflexivity.
  assert (H2 : SANITIZER_LINUX_OR_NETBSD b = true → loaded_modules rt ≠ [])
    by (intros _; discriminate).
  assert (H3 : total_allocated_user_size_ (observe (heap_views rt)) = 0) by reflexivity.
  split_and!; [exact H1|exact H2|exact H3|].
  destruct (abort_happens_inside_the_stopped_world b 100 10 rt H1 H2 H3)
    as (rt' & Hrun & _ & Hlocks).
  exists rt'. by split.
Defined.



(** ** Records stay where they are *)

Lemma Insert_vec_ids_prefix v i s :
  NoDup (id <$> v) → id <$> v `prefix_of` id <$> Insert_vec v i s.
Proof.
  intros Hnd. rewrite Insert_vec_ids by done. case_decide; [done|].
  by apply prefix_app_r.
Qed.

Lemma site_bytes_le_allocated i cvs : site_bytes i cvs ≤ allocated_bytes cvs.
Proof.
  unfold site_bytes, allocated_bytes.
  induction cvs as [|cv cvs IH]; simpl; [done|].
  assert (bytes_if (attributed i) cv ≤ bytes_if in_allocated cv); [|lia].
  unfold bytes_if, attributed, in_allocated.
  destruct (IsAllocated cv); simpl; [|done].
  destruct (GetAllocStackId cv =? i); lia.
Qed.

Lemma site_total_fits i cvs :
  allocated_bytes cvs < uptr_modulus → site_total i cvs = site_bytes i cvs.
Proof.
  intros Hfit. unfold site_total. pose proof (site_bytes_le_allocated i cvs).
  destruct (site_chunks i cvs =? 1); [done|]. apply wrap_small. lia.
Qed.

(** X15: a record never moves and never leaves the vector: after more
    chunks the ids of the vector are the ids it had before, in the same
    places, followed by the ids that are new; and while the allocated
    bytes and the number of chunks fit the machine word, the size and the
    count of a record never go down. *)
Theorem records_keep_their_place (cvs more : list AsanChunkView) :
  id <$> allocations_ (observe cvs)
    `prefix_of` id <$> allocations_ (observe (cvs ++ more))
  ∧ (length (allocations_ (observe cvs))
     ≤ length (allocations_ (observe (cvs ++ more))))%nat
  ∧ (allocated_bytes (cvs ++ more) < uptr_modulus →
     N.of_nat (length (cvs ++ more)) < uptr_modulus →
     ∀ a, a ∈ allocations_ (observe cvs) →
          ∃ a', a' ∈ allocations_ (observe (cvs ++ more))
                ∧ id a' = id a
                ∧ total_size a ≤ total_size a'
                ∧ count a ≤ count a').
Proof.
  assert (Hp : id <$> allocations_ (observe cvs)
                 `prefix_of` id <$> allocations_ (observe (cvs ++ more))).
  { induction more as [|cv more IH] using rev_ind.
    - by rewrite app_nil_r.
    - rewrite (assoc_L (++)), observe_snoc, ProcessChunk_allocations.
      destruct (IsAllocated cv && negb (GetAllocStackId cv =? 0)); [|done].
      etrans; [exact IH|]. apply Insert_vec_ids_prefix, observe_sites. }
  split_and!; [done| |].
  { apply prefix_length in Hp. by rewrite !length_fmap in Hp. }
  intros Hbytes Hlen a (Ha0 & Han & Ha)%observe_sites.
  set (i := id a) in *.
  assert (Hchunks : site_chunks i (cvs ++ more) = site_chunks i cvs + site_chunks i more)
    by apply tally_app.
  assert (Hsize : site_bytes i (cvs ++ more) = site_bytes i cvs + site_bytes i more)
    by apply tally_app.
  assert (Hab : allocated_bytes (cvs ++ more) = allocated_bytes cvs + allocated_bytes more)
    by apply tally_app.
  pose proof (site_chunks_le_allocated i (cvs ++ more)) as Hc1.
  pose proof (allocated_chunks_le_length (cvs ++ more)) as Hc2.
  exists (record_of i (cvs ++ more)). split_and!.
  - apply observe_sites. split_and!; [done|simpl; lia|done].
  - done.
  - rewrite Ha. unfold record_of. simpl.
    rewrite !site_total_fits by lia. lia.
  - rewrite Ha. unfold record_of. simpl.
    rewrite !wrap_small by lia. lia.
Qed.

Lemma records_keep_their_place_witness :
  let more := [mkChunkView true false 5 7; mkChunkView true false 8 4] in
  allocated_bytes (two_sites ++ more) < uptr_modulus
  ∧ N.of_nat (length (two_sites ++ more)) < uptr_modulus
  ∧ mkAllocationSite 7 300 3 ∈ allocations_ (observe two_sites)
  ∧ allocations_ (observe (two_sites ++ more))
    = [mkAllocationSite 7 305 4; mkAllocationSite 9 700 1; mkAllocationSite 4 8 1]
  ∧ ∃ a', a' ∈ allocations_ (observe (two_sites ++ more))
          ∧ id a' = 7 ∧ 300 ≤ total_size a' ∧ 3 ≤ count a'.
Proof.
  intros more.
  assert (H1 : allocated_bytes (two_sites ++ more) < uptr_modulus)
    by (vm_compute; reflexivity).
  assert (H2 : N.of_nat (length (two_sites ++ more)) < uptr_modulus)
    by (vm_compute; reflexivity).
  assert (H3 : mkAllocationSite 7 300 3 ∈ allocations_ (observe two_sites))
    by apply list_elem_of_here.
  split_and!; [exact H1|exact H2|exact H3|reflexivity|].
  exact (proj2 (proj2 (records_keep_their_place two_sites more)) H1 H2 _ H3).
Defined.
